(** * AutoencoderLinearDecoder: proximal operators, composite decoder, training loop

    A shallow embedding of [AutoencoderLinearDecoder.py].

    Numbers.  Tensor entries are real numbers ([R]): rounding, overflow,
    infinities and NaN of the float32 arithmetic are outside the model.  The one
    place where the program can leave the reals is a division by zero, which
    torch answers with [inf] or [nan] instead of raising; the model reports it
    as the outcome [NonFinite] and does not follow the run any further.

    Tensors.  A 2-D tensor is its shape together with its rows.  Every tensor
    built by the program satisfies [wf] (as many rows as the shape says, every
    row as long as the shape says).

    Effects.  Python exceptions and [NonFinite] are the [Raise] outcomes of the
    error monad [result]; in-place mutation is explicit: a call of a proximal
    operator returns the content of its argument after the call next to the
    returned tensor; the training loop threads a [state] holding the
    parameters, the optimizer, the sampling state of the dataset, the lines
    printed and the number of batches drawn.

    Inputs.  [add_annotations] is modelled from the point where its files
    have been read and split into terms. *)

From Stdlib Require Import String ZArith Bool Arith Reals Lra Lia List.
Import ListNotations.

Local Open Scope R_scope.

(** ** Outcomes *)

Inductive exn : Type :=
| ValueError (msg : string)
| KeyError (key : string)
| ZeroDivisionError
| RuntimeError        (* raised by torch: shapes that do not fit *)
| NonFinite.          (* a division by zero put inf or nan into a tensor *)

Inductive result (A : Type) : Type :=
| Ok (a : A)
| Raise (e : exn).

Arguments Ok {A} a.
Arguments Raise {A} e.

Definition bind {A B : Type} (m : result A) (k : A -> result B) : result B :=
  match m with
  | Ok a => k a
  | Raise e => Raise e
  end.

Notation "x <- m ;; k" := (bind m (fun x => k))
  (at level 61, m at next level, right associativity).

Definition is_ok {A : Type} (m : result A) : bool :=
  match m with Ok _ => true | Raise _ => false end.

Fixpoint mapM {A B : Type} (f : A -> result B) (l : list A) : result (list B) :=
  match l with
  | [] => Ok []
  | a :: l' => b <- f a ;; bs <- mapM f l' ;; Ok (b :: bs)
  end.

(** ** Comparisons of reals as booleans, and [bool.float()] *)

Definition Rgtb (x y : R) : bool := if Rlt_dec y x then true else false.
Definition Rgeb (x y : R) : bool := if Rle_dec y x then true else false.
Definition Rleb (x y : R) : bool := if Rle_dec x y then true else false.

Definition float_of_bool (b : bool) : R := if b then 1 else 0.

(** [a / b] on one entry: torch gives inf or nan when [b] is zero. *)
Definition div (a b : R) : result R :=
  if Req_dec_T b 0 then Raise NonFinite else Ok (a / b).

(** ** Tensors *)

Section Tensor.

Context {A : Type}.

Record tensor : Type := mkTensor {
  nrows : nat;
  ncols : nat;
  rows : list (list A)
}.

Definition wf (T : tensor) : Prop :=
  length (rows T) = nrows T /\
  Forall (fun r => length r = ncols T) (rows T).

Definition shape (T : tensor) : nat * nat := (nrows T, ncols T).

(** [T[i, j]] *)
Definition tget (T : tensor) (i j : nat) : option A :=
  match nth_error (rows T) i with
  | Some r => nth_error r j
  | None => None
  end.

(** [T[:, j]] *)
Definition column (d : A) (T : tensor) (j : nat) : list A :=
  map (fun r => nth j r d) (rows T).

End Tensor.

Arguments tensor A : clear implicits.

Fixpoint zip_with {A B C : Type} (f : A -> B -> C) (l : list A) (l' : list B)
  : list C :=
  match l, l' with
  | a :: l, b :: l' => f a b :: zip_with f l l'
  | _, _ => []
  end.

(** An elementwise operation on one tensor. *)
Definition tmap {A B : Type} (f : A -> B) (T : tensor A) : tensor B :=
  mkTensor (nrows T) (ncols T) (map (map f) (rows T)).

(** An elementwise operation on two tensors of one shape. *)
Definition tmap2 {A B C : Type} (f : A -> B -> C) (T : tensor A) (U : tensor B)
  : tensor C :=
  mkTensor (nrows T) (ncols T) (zip_with (zip_with f) (rows T) (rows U)).

(** An elementwise operation between a tensor and a vector with one entry per
    column (the vector is broadcast along the rows). *)
Definition tmap_cols {A B C : Type} (f : A -> B -> C) (T : tensor A) (v : list B)
  : tensor C :=
  mkTensor (nrows T) (ncols T) (map (fun r => zip_with f r v) (rows T)).

(** Broadcasting of one dimension: a list of length [n] is taken as it is, a
    list of length 1 is repeated [n] times, anything else is an error. *)
Definition expand {A : Type} (n : nat) (l : list A) : result (list A) :=
  if Nat.eqb (length l) n then Ok l
  else match l with
       | [a] => Ok (repeat a n)
       | _ => Raise RuntimeError
       end.

(** Broadcasting of a 2-D tensor to the shape [(r, c)], as an in-place
    operation on a tensor of that shape does with its right operand. *)
Definition expand_as {A : Type} (r c : nat) (M : tensor A) : result (tensor A) :=
  if (Nat.eqb (nrows M) r || Nat.eqb (nrows M) 1)
     && (Nat.eqb (ncols M) c || Nat.eqb (ncols M) 1)
  then
    rs <- mapM (expand c) (rows M) ;;
    rs' <- expand r rs ;;
    Ok (mkTensor r c rs')
  else Raise RuntimeError.

(** [T &= M] on boolean tensors. *)
Definition iand (T M : tensor bool) : result (tensor bool) :=
  M' <- expand_as (nrows T) (ncols T) M ;;
  Ok (tmap2 andb T M').

Fixpoint zip_withM {A B C : Type} (f : A -> B -> result C)
    (l : list A) (l' : list B) : result (list C) :=
  match l, l' with
  | a :: l, b :: l' => c <- f a b ;; cs <- zip_withM f l l' ;; Ok (c :: cs)
  | _, _ => Ok []
  end.

(** [tmap_cols] for an operation that can fail on an entry. *)
Definition tmap_colsM {A B C : Type} (f : A -> B -> result C)
    (T : tensor A) (v : list B) : result (tensor C) :=
  rs <- mapM (fun r => zip_withM f r v) (rows T) ;;
  Ok (mkTensor (nrows T) (ncols T) rs).

(** ** ProxOperL1 *)

Record ProxOperL1 : Type := {
  l1_I : option (tensor bool);
  l1_alpha : R;
  l1_inplace : bool
}.

(** [I.bool()]: an entry is true when it is not zero. *)
Definition to_bool (z : Z) : bool := negb (Z.eqb z 0).

Definition ProxOperL1_init (alpha : R) (I : option (tensor Z)) (inplace : bool)
  : ProxOperL1 :=
  {| l1_I := match I with
             | Some M => Some (tmap (fun z => negb (to_bool z)) M)
             | None => None
             end;
     l1_alpha := alpha;
     l1_inplace := inplace |}.

(** What a call of an operator leaves behind: the content of the tensor that
    was passed, the tensor that is returned, and whether the returned tensor
    is the object that was passed (an in-place call) or a new one. *)
Record called : Type := {
  arg_after : tensor R;
  returned : tensor R;
  same_object : bool
}.

(** The three updates of [W] in [ProxOperL1.__call__], given the three boolean
    tensors. *)
Definition l1_update (alpha : R) (W : tensor R)
    (W_geq_alpha W_leq_neg_alpha W_cond_joint : tensor bool) : tensor R :=
  let W1 := tmap2 Rminus W (tmap (fun b => float_of_bool b * alpha) W_geq_alpha) in
  let W2 := tmap2 Rplus W1 (tmap (fun b => float_of_bool b * alpha) W_leq_neg_alpha) in
  tmap2 Rminus W2 (tmap2 Rmult (tmap float_of_bool W_cond_joint) W2).

Definition ProxOperL1_call (self : ProxOperL1) (W : tensor R) : result called :=
  let alpha := l1_alpha self in
  let W_geq_alpha := tmap (fun w => Rgeb w alpha) W in
  let W_leq_neg_alpha := tmap (fun w => Rleb w (- alpha)) W in
  let W_cond_joint :=
    tmap2 andb (tmap negb W_geq_alpha) (tmap negb W_leq_neg_alpha) in
  masks <-
    match l1_I self with
    | Some M =>
        g <- iand W_geq_alpha M ;;
        l <- iand W_leq_neg_alpha M ;;
        j <- iand W_cond_joint M ;;
        Ok (g, l, j)
    | None => Ok (W_geq_alpha, W_leq_neg_alpha, W_cond_joint)
    end ;;
  let '(g, l, j) := masks in
  let W' := l1_update alpha W g l j in
  Ok {| arg_after := if l1_inplace self then W' else W;
        returned := W';
        same_object := l1_inplace self |}.

(** The soft-thresholding formula [sign(w) * max(|w| - alpha, 0)]. *)
Definition sign (w : R) : R :=
  if Rlt_dec 0 w then 1 else if Rlt_dec w 0 then -1 else 0.

Definition soft_threshold (alpha w : R) : R :=
  sign w * Rmax (Rabs w - alpha) 0.

(** ** ProxOperGroupL2 *)

(** The group coefficient is the number [alpha], or the flat tensor
    [(omega*alpha).view(-1)]. *)
Inductive group_coeff : Type :=
| Scalar (a : R)
| Vector (v : list R).

Record ProxOperGroupL2 : Type := {
  gl2_group_coeff : group_coeff;
  gl2_inplace : bool
}.

Definition ProxOperGroupL2_init (alpha : R) (omega : option (list R))
    (inplace : bool) : ProxOperGroupL2 :=
  {| gl2_group_coeff := match omega with
                        | None => Scalar alpha
                        | Some w => Vector (map (fun o => o * alpha) w)
                        end;
     gl2_inplace := inplace |}.

Definition sum_sq (l : list R) : R :=
  fold_right Rplus 0 (map (fun w => w * w) l).

(** [norm(p=2)] of a list of entries. *)
Definition norm2 (l : list R) : R := sqrt (sum_sq l).

(** [W.norm(p=2, dim=0)]: one norm per column. *)
Definition norm_dim0 (W : tensor R) : list R :=
  map (fun j => norm2 (column 0 W j)) (seq 0 (ncols W)).

(** The coefficient as one number per column of a tensor with [c] columns.
    A flat tensor whose length is neither [c] nor 1 does not fit: according
    to its length the error is raised by the comparison with the norms or by
    the first in-place update, in both cases before [W] is touched. *)
Definition coeff_per_column (g : group_coeff) (c : nat) : result (list R) :=
  match g with
  | Scalar a => Ok (repeat a c)
  | Vector v => expand c v
  end.

(** [scaled_norm_vector] after its two lines: the quotient of the norms by the
    coefficients, plus one where the quotient is not positive. *)
Definition scaled_norm_vector (norm_vect g : list R) : result (list R) :=
  s <- zip_withM div norm_vect g ;;
  Ok (map (fun q => q + float_of_bool (negb (Rgtb q 0))) s).

Definition ProxOperGroupL2_call (self : ProxOperGroupL2) (W : tensor R)
  : result called :=
  let norm_vect := norm_dim0 W in
  g <- coeff_per_column (gl2_group_coeff self) (ncols W) ;;
  let norm_g_gr_vect := zip_with Rgtb norm_vect g in
  s <- scaled_norm_vector norm_vect g ;;
  quot <- tmap_colsM div W s ;;
  let W1 := tmap2 Rminus W quot in
  let W2 := tmap_cols Rmult W1 (map float_of_bool norm_g_gr_vect) in
  Ok {| arg_after := if gl2_inplace self then W2 else W;
        returned := W2;
        same_object := gl2_inplace self |}.

(** What [ProxOperGroupL2] makes of an entry [w] of a column of norm [n] with
    coefficient [g]. *)
Definition group_entry (n g w : R) : R :=
  let q := n / g in
  (w - w / (q + float_of_bool (negb (Rgtb q 0)))) * float_of_bool (Rgtb n g).

(** ** CompositeLinearDecoder *)

Definition TERMS_KEYS : list string := ["annotated"; "sparse"; "dense"]%string.

(** [nn.ParameterDict]: the blocks by name, in insertion order. *)
Definition weight_dict : Type := list (string * tensor R).

Fixpoint lookup {V : Type} (k : string) (d : list (string * V)) : option V :=
  match d with
  | [] => None
  | (k', v) :: d' => if String.eqb k k' then Some v else lookup k d'
  end.

(** [d[k]] *)
Definition getitem {V : Type} (d : list (string * V)) (k : string) : result V :=
  match lookup k d with
  | Some v => Ok v
  | None => Raise (KeyError k)
  end.

(** [d[k] = v]: an existing key keeps its place, a new one goes last. *)
Fixpoint setitem {V : Type} (d : list (string * V)) (k : string) (v : V)
  : list (string * V) :=
  match d with
  | [] => [(k, v)]
  | (k', v') :: d' =>
      if String.eqb k k' then (k, v) :: d' else (k', v') :: setitem d' k v
  end.

Definition keys {V : Type} (d : list (string * V)) : list string := map fst d.
Definition values {V : Type} (d : list (string * V)) : list V := map snd d.

(** [T /= N] for a number [N]. *)
Definition idiv_scalar (T : tensor R) (N : R) : result (tensor R) :=
  rs <- mapM (mapM (fun w => div w N)) (rows T) ;;
  Ok (mkTensor (nrows T) (ncols T) rs).

(** [sum(filter(None, sizes))]: sizes that are [None] or 0 are dropped. *)
Definition sum_sizes (sizes : list (option nat)) : nat :=
  fold_right (fun s acc => match s with Some n => n + acc | None => acc end)%nat
             O sizes.

(** [CompositeLinearDecoder.__init__]; [randn k r c] stands for the draw
    [torch.randn(r, c)] made for the block [k]. *)
Definition CompositeLinearDecoder_init (randn : string -> nat -> nat -> tensor R)
    (n_vars : nat) (n_ann n_sparse n_dense : option nat) : result weight_dict :=
  let sizes := [n_ann; n_sparse; n_dense] in
  match n_ann, n_sparse, n_dense with
  | None, None, None =>
      Raise (ValueError "At least one type of terms should be chosen")
  | _, _, _ =>
      let N := sqrt (INR (sum_sizes sizes)) in
      fold_left
        (fun acc ks =>
           d <- acc ;;
           match snd ks with
           | Some size =>
               p <- idiv_scalar (randn (fst ks) n_vars size) N ;;
               Ok (setitem d (fst ks) p)
           | None => Ok d
           end)
        (combine TERMS_KEYS sizes) (Ok [])
  end.

(** [T.t()] *)
Definition transpose (T : tensor R) : tensor R :=
  mkTensor (ncols T) (nrows T) (map (column 0 T) (seq 0 (ncols T))).

(** The number of columns of all the tensors of a tuple. *)
Definition total_cols (vals : list (tensor R)) : nat :=
  fold_right (fun T n => ncols T + n)%nat O vals.

(** [torch.cat(vals, dim=1)]: the tensors must have as many rows as the first
    one; the result has the columns of all of them, and each of its rows is
    filled with the rows of the tensors, one tensor after the other. *)
Definition cat (vals : list (tensor R)) : result (tensor R) :=
  match vals with
  | [] => Raise RuntimeError
  | v :: _ =>
      if forallb (fun T => Nat.eqb (nrows T) (nrows v)) vals
      then Ok (mkTensor (nrows v) (total_cols vals)
                 (fold_left (fun acc T => zip_with (@app R) acc (rows T))
                            vals (repeat [] (nrows v))))
      else Raise RuntimeError
  end.

Definition dot (u v : list R) : R := fold_right Rplus 0 (zip_with Rmult u v).

(** [x.matmul(B)] *)
Definition matmul (x B : tensor R) : result (tensor R) :=
  if Nat.eqb (ncols x) (nrows B)
  then Ok (mkTensor (nrows x) (ncols B)
             (map (fun xr => map (fun j => dot xr (column 0 B j))
                                 (seq 0 (ncols B)))
                  (rows x)))
  else Raise RuntimeError.

(** [k * T] for a number [k]. *)
Definition scale (k : R) (T : tensor R) : tensor R := tmap (Rmult k) T.

(** The two branches of [forward]: one block, and the concatenation. *)
Definition forward_single (v : tensor R) (x : tensor R) : result (tensor R) :=
  matmul x (transpose v).

Definition forward_general (vals : list (tensor R)) (x : tensor R)
  : result (tensor R) :=
  W <- cat vals ;; matmul x (transpose W).

Definition forward (self : weight_dict) (x : tensor R) : result (tensor R) :=
  let vals := values self in
  match vals with
  | [v] => forward_single v x
  | _ => forward_general vals x
  end.

(** [int(r)] for a float: truncation towards zero. *)
Definition int_of_float (r : R) : Z :=
  if Rle_dec 0 r then Int_part r else (- Int_part (- r))%Z.

(** [(~(v > 0)).float().sum()] for a vector [v]. *)
Definition count_not_positive (v : list R) : R :=
  fold_right Rplus 0 (map (fun n => float_of_bool (negb (Rgtb n 0))) v).

(** [n_inactive_terms]: the count, and the blocks as the call leaves them. *)
Definition n_inactive_terms (self : weight_dict) : Z * weight_dict :=
  let n := fold_left (fun n v => n + count_not_positive (norm_dim0 v))
                     (values self) 0 in
  (int_of_float n, self).

(** The count the documentation of [n_inactive_terms] speaks of: the columns
    of a block whose L2 norm is exactly zero, and their number over all the
    blocks of a decoder. *)
Definition is_zero (r : R) : bool := if Req_dec_T r 0 then true else false.

Definition zero_norm_columns (W : tensor R) : nat :=
  length (filter (fun j => is_zero (norm2 (column 0 W j))) (seq 0 (ncols W))).

Definition n_zero_norm_columns (self : weight_dict) : nat :=
  fold_right (fun v n => zero_norm_columns v + n)%nat O (values self).

(** ** get_prox_operators *)

(** A registered operator: called on the data of a block. *)
Definition operator : Type := tensor R -> result called.

(** [lambda W: W] *)
Definition identity_op : operator :=
  fun W => Ok {| arg_after := W; returned := W; same_object := true |}.

(** [lambda W: outer(inner(W))].  [outer] works on the tensor that [inner]
    returns; what it does to that tensor is seen in [W] when [inner] returned
    [W] itself. *)
Definition compose (outer inner : operator) : operator :=
  fun W =>
    c1 <- inner W ;;
    c2 <- outer (returned c1) ;;
    Ok {| arg_after := if same_object c1 then arg_after c2 else arg_after c1;
          returned := returned c2;
          same_object := same_object c1 && same_object c2 |}.

(** The group operator [p_gr] of the registry. *)
Definition p_gr (lambda3 : option R) : operator :=
  match lambda3 with
  | Some l3 => ProxOperGroupL2_call (ProxOperGroupL2_init l3 None true)
  | None => identity_op
  end.

Definition p_l1_annot (I : option (tensor Z)) (lambda1 : R) : operator :=
  ProxOperL1_call (ProxOperL1_init lambda1 I true).

Definition p_l1_sparse (lambda2 : R) : operator :=
  ProxOperL1_call (ProxOperL1_init lambda2 None true).

Definition TERMS_KEY (i : nat) : string := nth i TERMS_KEYS ""%string.

Definition get_prox_operators (I : option (tensor Z))
    (lambda1 lambda2 lambda3 : option R) : list (string * operator) :=
  let ops_dct := [] in
  let ops_dct :=
    match lambda1 with
    | Some l1 =>
        setitem ops_dct (TERMS_KEY 0) (compose (p_gr lambda3) (p_l1_annot I l1))
    | None => ops_dct
    end in
  let ops_dct :=
    match lambda2 with
    | Some l2 =>
        setitem ops_dct (TERMS_KEY 1) (compose (p_gr lambda3) (p_l1_sparse l2))
    | None => ops_dct
    end in
  setitem ops_dct (TERMS_KEY 2) (fun W => p_gr lambda3 W).

(** [k in d] *)
Definition contains {V : Type} (d : list (string * V)) (k : string) : bool :=
  match lookup k d with Some _ => true | None => false end.

(** ** train_autoencoder *)

(** The collaborators of the training loop: the encoder (its parameters,
    buffers and random draws are its state; the flag is the train mode), the
    optimizer ([optim] builds it, [backward_step] stands for
    [zero_grad(); loss.backward(); optimizer.step()] and gives the new
    optimizer, the new encoder and the update of the data of each block) and
    the sampling of batches.  They are taken to return normally. *)
Class Collaborators : Type := {
  Encoder : Type;
  encoder_call : bool -> Encoder -> tensor R -> tensor R * Encoder;
  Optimizer : Type;
  optim : Encoder -> weight_dict -> R -> Optimizer;
  backward_step :
    Optimizer -> Encoder -> weight_dict -> tensor R -> R -> nat ->
    Optimizer * Encoder * (string -> tensor R -> tensor R);
  Sampler : Type;
  chunk_X : Sampler -> nat -> tensor R * Sampler
}.

(** A number of the diagnostics: numpy divides by zero without raising. *)
Inductive number : Type :=
| Finite (r : R)
| NotFinite.

Definition np_div (a b : R) : number :=
  if Req_dec_T b 0 then NotFinite else Finite (a / b).

Definition np_add (a b : number) : number :=
  match a, b with
  | Finite x, Finite y => Finite (x + y)
  | _, _ => NotFinite
  end.

(** The lines that are printed. *)
Inductive line : Type :=
| BatchLoss (epoch : nat) (loss : R)
| EpochLoss (epoch : nat) (comment : string) (t_loss t_reconst t_regul : number)
| DeactivatedTerms (n : Z)
| DeactivatedShare (share : number).

(** Wrap-around of the integer types of numpy. *)
Definition wrap (bits : Z) (z : Z) : Z :=
  ((z + 2 ^ (bits - 1)) mod 2 ^ bits - 2 ^ (bits - 1))%Z.

(** [(1 - I).sum()] for an int32 array [I]: the difference is an int32, the
    sum an int64. *)
Definition n_inact_genes_of (I : tensor Z) : Z :=
  wrap 64 (fold_right Z.add 0%Z
             (map (fun z => wrap 32 (1 - z)) (concat (rows I)))).

(** [t.sum()] *)
Definition tsum (T : tensor R) : R := fold_right Rplus 0 (concat (rows T)).

(** [torch.broadcast_tensors(a, b)] for 2-D tensors. *)
Definition broadcast_tensors (a b : tensor R) : result (tensor R * tensor R) :=
  let r := if Nat.eqb (nrows a) 1 then nrows b else nrows a in
  let c := if Nat.eqb (ncols a) 1 then ncols b else ncols a in
  a' <- expand_as r c a ;;
  b' <- expand_as r c b ;;
  Ok (a', b').

(** [nn.MSELoss(reduction='sum')] *)
Definition l2_loss (input target : tensor R) : result R :=
  ab <- broadcast_tensors input target ;;
  Ok (tsum (tmap (fun d => d * d) (tmap2 Rminus (fst ab) (snd ab)))).

(** [torch.zeros((r, c))] *)
Definition zeros (r c : nat) : tensor R := mkTensor r c (repeat (repeat 0 c) r).

(** [(~(W.abs() > 0)).float().sum()] *)
Definition count_not_abs_positive (W : tensor R) : R :=
  tsum (tmap (fun w => float_of_bool (negb (Rgtb (Rabs w) 0))) W).

Section Train.

Context `{Collaborators}.

(** [adata]: [varm_I] is what [adata.varm] holds under the key ['I'], if
    anything. *)
Record AnnData : Type := {
  X : tensor R;
  n_obs : nat;
  varm_I : option (tensor Z);
  sampling : Sampler
}.

Record Autoencoder : Type := {
  encoder : Encoder;
  decoder : weight_dict;
  n_terms : nat
}.

(** What the loop changes: the parameters, the optimizer, the sampling
    state, the lines printed so far and the number of batches drawn. *)
Record state : Type := mkState {
  st_encoder : Encoder;
  st_decoder : weight_dict;
  st_optimizer : Optimizer;
  st_sampling : Sampler;
  st_output : list line;
  st_drawn : nat
}.

Definition M (A : Type) : Type := state -> result A * state.

Definition ret {A : Type} (a : A) : M A := fun s => (Ok a, s).

Definition bindM {A B : Type} (m : M A) (k : A -> M B) : M B :=
  fun s => match m s with
           | (Ok a, s') => k a s'
           | (Raise e, s') => (Raise e, s')
           end.

Definition lift {A : Type} (r : result A) : M A := fun s => (r, s).

Definition print (l : line) : M unit :=
  fun s => (Ok tt, mkState (st_encoder s) (st_decoder s) (st_optimizer s)
                           (st_sampling s) (st_output s ++ [l]) (st_drawn s)).

Fixpoint for_each {A : Type} (l : list A) (body : A -> M unit) : M unit :=
  match l with
  | [] => ret tt
  | a :: l' => bindM (body a) (fun _ => for_each l' body)
  end.

End Train.

Notation "x <~ m ;; k" := (bindM m (fun x => k))
  (at level 61, m at next level, right associativity).

Section TrainLoop.

Context `{Collaborators}.

Definition set_encoder (e : Encoder) (s : state) : state :=
  mkState e (st_decoder s) (st_optimizer s) (st_sampling s) (st_output s)
          (st_drawn s).

Definition set_decoder (d : weight_dict) (s : state) : state :=
  mkState (st_encoder s) d (st_optimizer s) (st_sampling s) (st_output s)
          (st_drawn s).

Definition set_optimizer (o : Optimizer) (s : state) : state :=
  mkState (st_encoder s) (st_decoder s) o (st_sampling s) (st_output s)
          (st_drawn s).

(** [adata.chunk_X(batch_size)] *)
Definition draw_batch (batch_size : nat) : M (tensor R) :=
  fun s =>
    let '(batch, smp) := chunk_X (st_sampling s) batch_size in
    (Ok batch,
     mkState (st_encoder s) (st_decoder s) (st_optimizer s) smp (st_output s)
             (S (st_drawn s))).

(** [autoencoder(x)]: the pair [(encoded, decoded)]. *)
Definition autoencoder_call (training : bool) (x : tensor R)
  : M (tensor R * tensor R) :=
  fun s =>
    let '(encoded, e) := encoder_call training (st_encoder s) x in
    match forward (st_decoder s) encoded with
    | Ok decoded => (Ok (encoded, decoded), set_encoder e s)
    | Raise err => (Raise err, set_encoder e s)
    end.

(** [optimizer.zero_grad(); loss.backward(); optimizer.step()] *)
Definition optimizer_step (batch : tensor R) (lambda0 : R) (batch_size : nat)
  : M unit :=
  fun s =>
    let '(o, e, upd) :=
      backward_step (st_optimizer s) (st_encoder s) (st_decoder s) batch
                    lambda0 batch_size in
    (Ok tt,
     set_optimizer o
       (set_encoder e
          (set_decoder
             (map (fun kv => (fst kv, upd (fst kv) (snd kv))) (st_decoder s))
             s))).

(** [prox_ops[k](autoencoder.decoder.weight_dict[k].data)] *)
Definition apply_prox (prox_ops : list (string * operator)) (k : string)
  : M unit :=
  fun s =>
    match (op <- getitem prox_ops k ;;
           W <- getitem (st_decoder s) k ;;
           op W) with
    | Ok c => (Ok tt, set_decoder (setitem (st_decoder s) k (arg_after c)) s)
    | Raise err => (Raise err, s)
    end.

(** One pass of the body of the loop over the steps. *)
Definition train_step (prox_ops : list (string * operator))
    (term_keys : list string) (zeros_ : tensor R) (lambda0 : R)
    (batch_size epoch step : nat) : M unit :=
  batch <~ draw_batch batch_size ;;
  ed <~ autoencoder_call true batch ;;
  a <~ lift (l2_loss (snd ed) batch) ;;
  b <~ lift (l2_loss (fst ed) zeros_) ;;
  loss <~ lift (div (a + lambda0 * b) (INR batch_size)) ;;
  _ <~ optimizer_step batch lambda0 batch_size ;;
  _ <~ for_each term_keys (apply_prox prox_ops) ;;
  if Nat.eqb (step mod 100) 0 then print (BatchLoss epoch loss) else ret tt.

(** [autoencoder.decoder.n_inactive_terms()] *)
Definition call_n_inactive_terms : M Z :=
  fun s =>
    let '(n, d) := n_inactive_terms (st_decoder s) in
    (Ok n, set_decoder d s).

(** The end of an epoch, from [autoencoder.eval()] on. *)
Definition epoch_end (t_X : tensor R) (comment : string) (lambda0 : R)
    (n_inact_genes : Z) (epoch : nat) : M unit :=
  let test_n_obs := nrows t_X in
  ed <~ autoencoder_call false t_X ;;
  a <~ lift (l2_loss (snd ed) t_X) ;;
  let t_reconst := np_div a (INR test_n_obs) in
  b <~ lift (l2_loss (fst ed) (zeros (nrows (fst ed)) (ncols (fst ed)))) ;;
  let t_regul := np_div (lambda0 * b) (INR test_n_obs) in
  let t_loss := np_add t_reconst t_regul in
  _ <~ print (EpochLoss epoch comment t_loss t_reconst t_regul) ;;
  n_deact_terms <~ call_n_inactive_terms ;;
  _ <~ print (DeactivatedTerms n_deact_terms) ;;
  W <~ (fun s => (getitem (st_decoder s) (TERMS_KEY 0), s)) ;;
  let n_deact_genes := count_not_abs_positive W in
  print (DeactivatedShare (np_div n_deact_genes (IZR n_inact_genes))).

(** [int(adata.n_obs/batch_size)] *)
Definition n_steps (n_obs_ batch_size : nat) : result nat :=
  if Nat.eqb batch_size 0 then Raise ZeroDivisionError
  else Ok (n_obs_ / batch_size)%nat.

Definition epoch_body (adata : AnnData) (prox_ops : list (string * operator))
    (term_keys : list string) (zeros_ t_X : tensor R) (comment : string)
    (lambda0 : R) (n_inact_genes : Z) (batch_size epoch : nat) : M unit :=
  n <~ lift (n_steps (n_obs adata) batch_size) ;;
  _ <~ for_each (seq 0 n)
         (train_step prox_ops term_keys zeros_ lambda0 batch_size epoch) ;;
  epoch_end t_X comment lambda0 n_inact_genes epoch.

(** The check of the registry against the blocks of the decoder. *)
Definition validate (prox_ops : list (string * operator))
    (term_keys : list string) : M unit :=
  for_each term_keys
    (fun k =>
       if contains prox_ops k then ret tt
       else lift (Raise (ValueError
              ("Provide regularization coefficient for " ++ k)%string))).

Definition initial_state (adata : AnnData) (autoencoder : Autoencoder)
    (lr : R) : state :=
  mkState (encoder autoencoder) (decoder autoencoder)
          (optim (encoder autoencoder) (decoder autoencoder) lr)
          (sampling adata) [] 0.

(** [adata.varm['I']] *)
Definition getitem_varm_I (adata : AnnData) : result (tensor Z) :=
  match varm_I adata with
  | Some I_ => Ok I_
  | None => Raise (KeyError "I")
  end.

(** [train_autoencoder]: how the call ends, and the state it leaves. *)
Definition train_autoencoder (adata : AnnData) (autoencoder : Autoencoder)
    (lr : R) (batch_size num_epochs : nat) (l2_reg_lambda0 : R)
    (lambda1 lambda2 lambda3 : option R) (test_data : option (tensor R))
  : result unit * state :=
  (I_ <~ lift (getitem_varm_I adata) ;;
   let n_inact_genes := n_inact_genes_of I_ in
   let prox_ops := get_prox_operators (Some I_) lambda1 lambda2 lambda3 in
   let term_keys := keys (decoder autoencoder) in
   _ <~ validate prox_ops term_keys ;;
   let '(t_X, comment) :=
     match test_data with
     | None => (X adata, "-- total train loss: "%string)
     | Some t => (t, "-- test loss:"%string)
     end in
   let zeros_ := zeros batch_size (n_terms autoencoder) in
   for_each (seq 0 num_epochs)
     (epoch_body adata prox_ops term_keys zeros_ t_X comment l2_reg_lambda0
                 n_inact_genes batch_size))
    (initial_state adata autoencoder lr).

(** An action of the loop that leaves the names of the blocks as they are,
    however it ends. *)
Definition keeps_keys {A : Type} (m : M A) : Prop :=
  forall s r s', m s = (r, s') -> keys (st_decoder s') = keys (st_decoder s).

(** An action of the loop that draws no batch, however it ends. *)
Definition keeps_drawn {A : Type} (m : M A) : Prop :=
  forall s r s', m s = (r, s') -> st_drawn s' = st_drawn s.

End TrainLoop.

(** ** AutoencoderLinearDecoder *)

(** [s if s is not None else 0] *)
Definition size_or_zero (s : option nat) : nat :=
  match s with Some n => n | None => O end.

(** [s if s != 0 else None] *)
Definition nonzero_size (s : option nat) : option nat :=
  match s with Some O => None | _ => s end.

Section AutoencoderInit.

Context `{Collaborators}.

(** The attributes that [AutoencoderLinearDecoder.__init__] sets. *)
Record AutoencoderLinearDecoder : Type := {
  ald_n_vars : nat;
  ald_n_terms : nat;
  ald_n_ann : nat;
  ald_n_sparse : nat;
  ald_n_dense : nat;
  ald_dropout_rate : R;
  ald_mid_layers_size : nat;
  ald_encoder : Encoder;
  ald_decoder : weight_dict
}.

(** [AutoencoderLinearDecoder.__init__].  [mk_encoder n_vars mid n_terms
    dropout_rate] stands for the [nn.Sequential] that is built for the
    encoder; the two keyword arguments are [None] when they are not given. *)
Definition AutoencoderLinearDecoder_init
    (mk_encoder : nat -> nat -> nat -> R -> Encoder)
    (randn : string -> nat -> nat -> tensor R)
    (n_vars : nat) (n_ann n_sparse n_dense : option nat)
    (dropout_rate : option R) (mid_layers_size : option nat)
  : result AutoencoderLinearDecoder :=
  let sizes := map size_or_zero [n_ann; n_sparse; n_dense] in
  let n_terms_ := fold_left Nat.add sizes O in
  let dropout_rate_ := match dropout_rate with Some d => d | None => 2 / 10 end in
  let mid_layers_size_ :=
    match mid_layers_size with Some m => m | None => 400%nat end in
  let encoder_ := mk_encoder n_vars mid_layers_size_ n_terms_ dropout_rate_ in
  decoder_ <- CompositeLinearDecoder_init randn n_vars (nonzero_size n_ann)
                (nonzero_size n_sparse) (nonzero_size n_dense) ;;
  Ok {| ald_n_vars := n_vars;
        ald_n_terms := n_terms_;
        ald_n_ann := nth 0 sizes O;
        ald_n_sparse := nth 1 sizes O;
        ald_n_dense := nth 2 sizes O;
        ald_dropout_rate := dropout_rate_;
        ald_mid_layers_size := mid_layers_size_;
        ald_encoder := encoder_;
        ald_decoder := decoder_ |}.

(** The autoencoder as [train_autoencoder] uses it. *)
Definition as_autoencoder (a : AutoencoderLinearDecoder) : Autoencoder :=
  {| encoder := ald_encoder a; decoder := ald_decoder a;
     n_terms := ald_n_terms a |}.

End AutoencoderInit.

(** ** add_annotations *)

(** The part of [add_annotations] that follows the reading of the files: from
    [var_names], the names of the genes in upper case, and [annot], the terms
    that were read, to the matrix that goes to [adata.varm] and the names
    that go to [adata.uns].  A term is never empty ([if term]): it is the
    name of the term and the tokens that followed it on its line. *)
Definition term : Type := (string * list string)%type.

Definition tokens (t : term) : list string := fst t :: snd t.

(** [gene in term] *)
Definition mem_string (gene : string) (l : list string) : bool :=
  existsb (String.eqb gene) l.

(** [int(b)] *)
Definition int_of_bool (b : bool) : Z := if b then 1%Z else 0%Z.

(** [[[int(gene in term) for term in annot] for gene in var_names]] *)
Definition annotation_rows (var_names : list string) (annot : list term)
  : list (list Z) :=
  map (fun gene => map (fun t => int_of_bool (mem_string gene (tokens t))) annot)
      var_names.

(** [I.sum(0)] for an int32 array with [n] columns: the sums are int64. *)
Definition sum_dim0 (n : nat) (rs : list (list Z)) : list Z :=
  map (fun j => wrap 64 (fold_right Z.add 0%Z (map (fun r => nth j r 0%Z) rs)))
      (seq 0 n).

(** [l[mask]]: the elements of [l] at the places where [mask] is true. *)
Definition select {A : Type} (mask : list bool) (l : list A) : list A :=
  map snd (filter fst (combine mask l)).

(** The matrix and the names, for at least one gene.  Without genes the
    array has one dimension only and what follows depends on how numpy
    indexes such an array: this case is left out ([None]). *)
Definition add_annotations (var_names : list string) (annot : list term)
    (min_genes : Z) : option (tensor Z * list string) :=
  let I_rows := annotation_rows var_names annot in
  match var_names with
  | [] => None
  | _ :: _ =>
      let mask := map (fun n => Z.gtb n min_genes)
                      (sum_dim0 (length annot) I_rows) in
      let kept := map (select mask) I_rows in
      Some (mkTensor (length var_names) (length (filter (fun b => b) mask)) kept,
            select mask (map fst annot))
  end.

(** The number of the genes of [var_names] that a term holds. *)
Definition genes_in_term (var_names : list string) (t : term) : Z :=
  Z.of_nat (length (filter (fun gene => mem_string gene (tokens t)) var_names)).

(** ** Example inputs *)

(** A 2x2 block and an annotation matrix for it. *)
Definition W_example : tensor R := mkTensor 2 2 [[2; -3]; [1 / 2; 0]].

Definition I_example : tensor Z := mkTensor 2 2 [[1; 0]; [0; 1]]%Z.

(** A block whose first column has norm 5 and whose second column is zero,
    and a coefficient for each of its columns. *)
Definition W_group : tensor R := mkTensor 2 2 [[3; 0]; [4; 0]].

Definition prox_group : ProxOperGroupL2 :=
  {| gl2_group_coeff := Vector [1; 1]; gl2_inplace := true |}.

(** A 5x2 sparse block whose first column holds 0.5 in every entry. *)
Definition W_sparse : tensor R := mkTensor 5 2 (repeat [1 / 2; 2] 5).

(** A decoder with the sparse block alone, and an input for it. *)
Definition decoder_sparse : weight_dict := [("sparse"%string, W_sparse)].

Definition x_example : tensor R := mkTensor 1 2 [[1; 3]].

(** A decoder with an annotated and a sparse block over two genes, and a
    batch of one observation over its four terms. *)
Definition decoder_two_blocks : weight_dict :=
  [("annotated"%string, W_example); ("sparse"%string, W_group)].

Definition x_two_blocks : tensor R := mkTensor 1 4 [[1; 3; 0; 2]].

(** The keys [__init__] inserts: those of [TERMS_KEYS] whose size is given. *)
Definition present_keys (n_ann n_sparse n_dense : option nat) : list string :=
  map fst (filter (fun ks => match snd ks with Some _ => true | None => false end)
                  (combine TERMS_KEYS [n_ann; n_sparse; n_dense])).

(** The first key of [term_keys] that the registry lacks, if any. *)
Definition missing_key (prox_ops : list (string * operator))
    (term_keys : list string) : option string :=
  find (fun k => negb (contains prox_ops k)) term_keys.

(** Collaborators that learn nothing: the encoder sends every observation to
    the zero vector over two terms, the optimizer leaves every parameter as it
    is, and every batch is made of zero observations over two genes. *)
Definition still_collaborators : Collaborators :=
  {| Encoder := unit;
     encoder_call := fun _ e x => (zeros (nrows x) 2, e);
     Optimizer := unit;
     optim := fun _ _ _ => tt;
     backward_step := fun o e _ _ _ _ => (o, e, fun _ W => W);
     Sampler := unit;
     chunk_X := fun s n => (zeros n 2, s) |}.

(** One observation over two genes, with an annotation matrix of two genes
    and two terms in which only gene 1 is annotated, to term 0. *)
Definition I_share : tensor Z := mkTensor 2 2 [[0; 0]; [1; 0]]%Z.

Definition adata_example : @AnnData still_collaborators :=
  {| X := mkTensor 1 2 [[1; 1]];
     n_obs := 1;
     varm_I := Some I_share;
     sampling := (tt : @Sampler still_collaborators) |}.

(** An annotated block with two zero entries and no zero row. *)
Definition W_share : tensor R := mkTensor 2 2 [[0; 1]; [0; 5]].

Definition autoencoder_annotated : @Autoencoder still_collaborators :=
  {| encoder := (tt : @Encoder still_collaborators);
     decoder := [("annotated"%string, W_share)];
     n_terms := 2 |}.

(** An autoencoder whose decoder has a sparse block only. *)
Definition autoencoder_sparse : @Autoencoder still_collaborators :=
  {| encoder := (tt : @Encoder still_collaborators);
     decoder := [("sparse"%string, W_group)];
     n_terms := 2 |}.

(** Two readings of the share of deactivated inactive genes of an annotated
    block [W] under an annotation matrix [I_].  By genes: the rows of [W]
    that are zero throughout, over the rows of [I_] whose sum is zero.  By
    entries: the entries of [W] that are zero, over the entries of [I_] that
    are zero. *)
Definition zero_rows (W : tensor R) : nat :=
  length (filter (forallb is_zero) (rows W)).

Definition unannotated_genes (I_ : tensor Z) : nat :=
  length (filter (fun r => Z.eqb (fold_right Z.add 0%Z r) 0) (rows I_)).

Definition share_by_genes (W : tensor R) (I_ : tensor Z) : number :=
  np_div (INR (zero_rows W)) (INR (unannotated_genes I_)).

Definition zero_entries (W : tensor R) : nat :=
  length (filter is_zero (concat (rows W))).

Definition zero_annotations (I_ : tensor Z) : nat :=
  length (filter (Z.eqb 0) (concat (rows I_))).

Definition share_by_entries (W : tensor R) (I_ : tensor Z) : number :=
  np_div (INR (zero_entries W)) (INR (zero_annotations I_)).

(** An annotation matrix as [add_annotations] builds it: entries 0 or 1. *)
Definition binary (I_ : tensor Z) : Prop :=
  Forall (fun z => z = 0%Z \/ z = 1%Z) (concat (rows I_)).

(** The data of [adata_example] without annotations. *)
Definition adata_no_annotations : @AnnData still_collaborators :=
  {| X := mkTensor 1 2 [[1; 1]];
     n_obs := 1;
     varm_I := None;
     sampling := (tt : @Sampler still_collaborators) |}.

(** Three genes, and three terms of which the second names none of them. *)
Definition var_names_example : list string := ["TP53"; "BRCA1"; "EGFR"]%string.

Definition annot_example : list term :=
  [("REPAIR", ["BRCA1"; "TP53"]); ("OTHER", ["MYC"]); ("TP53", ["EGFR"])]%string.

(** An autoencoder whose decoder has a dense block only. *)
Definition autoencoder_dense : @Autoencoder still_collaborators :=
  {| encoder := (tt : @Encoder still_collaborators);
     decoder := [("dense"%string, W_example)];
     n_terms := 2 |}.

(** * Properties *)

(** ** Lists and tensors *)

Lemma nth_error_zip_with {A B C : Type} (f : A -> B -> C) (l : list A)
    (l2 : list B) (n : nat) :
  nth_error (zip_with f l l2) n =
  match nth_error l n, nth_error l2 n with
  | Some a, Some b => Some (f a b)
  | _, _ => None
  end.
Proof.
  revert l2 n; induction l as [|a l IH]; intros [|b l2] [|n]; simpl; auto.
  destruct (nth_error l n); reflexivity.
Qed.

Lemma tget_tmap {A B : Type} (f : A -> B) (T : tensor A) (i j : nat) :
  tget (tmap f T) i j = option_map f (tget T i j).
Proof.
  unfold tget, tmap; simpl.
  rewrite nth_error_map.
  destruct (nth_error (rows T) i) as [r|]; simpl; auto.
  apply nth_error_map.
Qed.

Lemma tget_tmap2 {A B C : Type} (f : A -> B -> C) (T : tensor A) (U : tensor B)
    (i j : nat) :
  tget (tmap2 f T U) i j =
  match tget T i j, tget U i j with
  | Some a, Some b => Some (f a b)
  | _, _ => None
  end.
Proof.
  unfold tget, tmap2; simpl.
  rewrite nth_error_zip_with.
  destruct (nth_error (rows T) i) as [r|]; auto.
  destruct (nth_error (rows U) i) as [r'|].
  - apply nth_error_zip_with.
  - destruct (nth_error r j); reflexivity.
Qed.

Lemma mapM_ok_id {A : Type} (f : A -> result A) (l : list A) :
  Forall (fun a => f a = Ok a) l -> mapM f l = Ok l.
Proof.
  induction 1 as [|a l Ha _ IH]; simpl; auto.
  rewrite Ha; simpl. rewrite IH; reflexivity.
Qed.

Lemma expand_same {A : Type} (n : nat) (l : list A) :
  length l = n -> expand n l = Ok l.
Proof.
  intros <-. unfold expand. rewrite Nat.eqb_refl. reflexivity.
Qed.

(** Broadcasting a well-formed tensor to its own shape changes nothing. *)
Lemma expand_as_same {A : Type} (r c : nat) (M : tensor A) :
  wf M -> nrows M = r -> ncols M = c ->
  expand_as r c M = Ok (mkTensor r c (rows M)).
Proof.
  intros [Hr Hc] <- <-. unfold expand_as.
  rewrite !Nat.eqb_refl. simpl.
  rewrite mapM_ok_id.
  - simpl. rewrite expand_same by assumption. reflexivity.
  - eapply Forall_impl; [|exact Hc]. intros a Ha. apply expand_same, Ha.
Qed.

Lemma iand_same_shape (T M : tensor bool) :
  wf M -> nrows M = nrows T -> ncols M = ncols T ->
  iand T M = Ok (tmap2 andb T M).
Proof.
  intros Hwf Hr Hc. unfold iand.
  rewrite (expand_as_same _ _ _ Hwf Hr Hc). reflexivity.
Qed.

(** ** Arithmetic of one entry *)

Ltac r_cases :=
  unfold Rgtb, Rgeb, Rleb, sign, float_of_bool, Rmax, Rabs in *;
  repeat match goal with
         | |- context [Rcase_abs ?a] => destruct (Rcase_abs a)
         | |- context [Rle_dec ?a ?b] => destruct (Rle_dec a b)
         | |- context [Rlt_dec ?a ?b] => destruct (Rlt_dec a b)
         end;
  simpl; try lra.

(** The three updates on an entry that the mask lets through. *)
Lemma l1_entry_selected (alpha w : R) :
  0 < alpha ->
  let g := Rgeb w alpha in
  let l := Rleb w (- alpha) in
  let j := negb g && negb l in
  let w2 := w - float_of_bool g * alpha + float_of_bool l * alpha in
  w2 - float_of_bool j * w2 = soft_threshold alpha w.
Proof.
  intros Ha; unfold soft_threshold; r_cases.
Qed.

(** The three updates on an entry that the mask holds back. *)
Lemma l1_entry_exempt (alpha w : R) :
  let w2 := w - float_of_bool false * alpha + float_of_bool false * alpha in
  w2 - float_of_bool false * w2 = w.
Proof.
  simpl; lra.
Qed.

(** An entry of [l1_update]. *)
Lemma tget_l1_update (alpha : R) (W : tensor R) (G L J : tensor bool)
    (i j : nat) :
  tget (l1_update alpha W G L J) i j =
  match tget W i j, tget G i j, tget L i j, tget J i j with
  | Some w, Some g, Some l, Some c =>
      let w2 := w - float_of_bool g * alpha + float_of_bool l * alpha in
      Some (w2 - float_of_bool c * w2)
  | _, _, _, _ => None
  end.
Proof.
  cbv beta zeta delta [l1_update].
  repeat (rewrite tget_tmap2 || rewrite tget_tmap).
  destruct (tget W i j), (tget G i j), (tget L i j), (tget J i j);
    simpl; reflexivity.
Qed.

Lemma wf_tmap {A B : Type} (f : A -> B) (T : tensor A) :
  wf T -> wf (tmap f T).
Proof.
  intros [Hr Hc]; split; simpl.
  - rewrite length_map; exact Hr.
  - apply Forall_map. eapply Forall_impl; [|exact Hc].
    intros r Hlen. simpl. rewrite length_map. exact Hlen.
Qed.

(** ** ProxOperL1 *)

(** Without a mask every entry goes through the three updates. *)
Lemma ProxOperL1_call_no_mask (alpha : R) (W : tensor R) (inplace : bool) :
  0 < alpha ->
  exists c,
    ProxOperL1_call (ProxOperL1_init alpha None inplace) W = Ok c /\
    shape (returned c) = shape W /\
    arg_after c = (if inplace then returned c else W) /\
    forall i j,
      tget (returned c) i j = option_map (soft_threshold alpha) (tget W i j).
Proof.
  intros Ha. unfold ProxOperL1_call, ProxOperL1_init; simpl.
  eexists; split; [reflexivity|]; simpl.
  split; [reflexivity|]. split; [reflexivity|].
  intros i j. rewrite tget_l1_update.
  repeat (rewrite tget_tmap2 || rewrite tget_tmap).
  destruct (tget W i j) as [w|]; simpl; auto.
  f_equal. apply (l1_entry_selected alpha w Ha).
Qed.

(** With a mask of the shape of [W], the entries whose annotation is not zero
    are held back and the others go through the three updates. *)
Lemma ProxOperL1_call_mask (alpha : R) (W : tensor R) (I : tensor Z)
    (inplace : bool) :
  0 < alpha -> wf I -> shape I = shape W ->
  exists c,
    ProxOperL1_call (ProxOperL1_init alpha (Some I) inplace) W = Ok c /\
    shape (returned c) = shape W /\
    arg_after c = (if inplace then returned c else W) /\
    forall i j w z,
      tget W i j = Some w -> tget I i j = Some z ->
      tget (returned c) i j =
      Some (if to_bool z then w else soft_threshold alpha w).
Proof.
  intros Ha Hwf Hshape. injection Hshape as Hr Hc.
  unfold ProxOperL1_call, ProxOperL1_init; simpl.
  rewrite !iand_same_shape by (try apply wf_tmap; simpl; auto).
  simpl. eexists; split; [reflexivity|]; simpl.
  split; [reflexivity|]. split; [reflexivity|].
  intros i j w z Hw Hz. rewrite tget_l1_update.
  repeat (rewrite tget_tmap2 || rewrite tget_tmap).
  rewrite Hw, Hz; simpl.
  destruct (to_bool z); simpl.
  - rewrite !andb_false_r. f_equal. apply l1_entry_exempt.
  - rewrite !andb_true_r. f_equal. apply (l1_entry_selected alpha w Ha).
Qed.

(** C1.  For a threshold [alpha > 0], [ProxOperL1] without a mask maps every
    entry [w] to [sign(w) * max(|w| - alpha, 0)]; with a mask of the shape of
    the block, the entries whose annotation value is 1 are returned unchanged
    and the entries whose annotation value is 0 are mapped by the same
    formula.  In both cases the argument holds the result after an in-place
    call and is left as it was otherwise. *)
Theorem C1_ProxOperL1_soft_thresholding (alpha : R) (W : tensor R)
    (I : tensor Z) (inplace : bool) :
  0 < alpha -> wf I -> shape I = shape W ->
  (exists c,
     ProxOperL1_call (ProxOperL1_init alpha None inplace) W = Ok c /\
     shape (returned c) = shape W /\
     arg_after c = (if inplace then returned c else W) /\
     forall i j,
       tget (returned c) i j = option_map (soft_threshold alpha) (tget W i j))
  /\
  (exists c,
     ProxOperL1_call (ProxOperL1_init alpha (Some I) inplace) W = Ok c /\
     shape (returned c) = shape W /\
     arg_after c = (if inplace then returned c else W) /\
     forall i j w z,
       tget W i j = Some w -> tget I i j = Some z ->
       (z = 1%Z -> tget (returned c) i j = Some w) /\
       (z = 0%Z -> tget (returned c) i j = Some (soft_threshold alpha w))).
Proof.
  intros Ha Hwf Hshape. split.
  - apply ProxOperL1_call_no_mask, Ha.
  - destruct (ProxOperL1_call_mask alpha W I inplace Ha Hwf Hshape)
      as (c & Hc & Hs & Hin & Hent).
    exists c. repeat split; auto.
    + intros ->. rewrite (Hent i j w 1%Z) by assumption. reflexivity.
    + intros ->. rewrite (Hent i j w 0%Z) by assumption. reflexivity.
Qed.

Lemma C1_witness :
  0 < 1 /\ wf I_example /\ shape I_example = shape W_example /\
  exists c,
    ProxOperL1_call (ProxOperL1_init 1 (Some I_example) true) W_example = Ok c /\
    tget (returned c) 0 0 = Some 2 /\
    tget (returned c) 0 1 = Some (soft_threshold 1 (-3)).
Proof.
  assert (Ha : 0 < 1) by lra.
  assert (Hwf : wf I_example) by (split; [reflexivity | repeat constructor]).
  assert (Hs : shape I_example = shape W_example) by reflexivity.
  split; [exact Ha|]. split; [exact Hwf|]. split; [exact Hs|].
  destruct (C1_ProxOperL1_soft_thresholding 1 W_example I_example true Ha Hwf Hs)
    as [_ (c & Hc & _ & _ & Hent)].
  exists c. split; [exact Hc|]. split.
  - apply (Hent 0%nat 0%nat 2 1%Z); reflexivity.
  - apply (Hent 0%nat 1%nat (-3) 0%Z); reflexivity.
Defined.

(** ** More on lists *)

Lemma zip_with_map_r {A B C : Type} (f : A -> B -> C) (g : A -> B)
    (l : list A) :
  zip_with f l (map g l) = map (fun x => f x (g x)) l.
Proof.
  induction l as [|a l IH]; simpl; congruence.
Qed.

Lemma length_zip_with {A B C : Type} (f : A -> B -> C) (l : list A)
    (l2 : list B) :
  length (zip_with f l l2) = Nat.min (length l) (length l2).
Proof.
  revert l2; induction l as [|a l IH]; intros [|b l2]; simpl; auto.
Qed.

Lemma nth_zip_with {A B C : Type} (f : A -> B -> C) (l : list A)
    (l2 : list B) (j : nat) (dA : A) (dB : B) (dC : C) :
  (j < length l)%nat -> (j < length l2)%nat ->
  nth j (zip_with f l l2) dC = f (nth j l dA) (nth j l2 dB).
Proof.
  revert l2 j; induction l as [|a l IH]; intros [|b l2] [|j]; simpl;
    intros H1 H2; try lia; auto.
  apply IH; lia.
Qed.

Lemma mapM_ok_map {A B : Type} (f : A -> result B) (g : A -> B) (l : list A) :
  Forall (fun a => f a = Ok (g a)) l -> mapM f l = Ok (map g l).
Proof.
  induction 1 as [|a l Ha _ IH]; simpl; auto.
  rewrite Ha; simpl. rewrite IH; reflexivity.
Qed.

Lemma zip_withM_div_ok (s l : list R) :
  Forall (fun x => x <> 0) s -> zip_withM div l s = Ok (zip_with Rdiv l s).
Proof.
  intros Hs; revert l; induction Hs as [|x s Hx _ IH]; intros [|a l];
    simpl; auto.
  unfold div at 1. destruct (Req_dec_T x 0) as [E|_]; [contradiction|].
  simpl. rewrite IH; reflexivity.
Qed.

Lemma expand_length {A : Type} (n : nat) (l l2 : list A) :
  expand n l = Ok l2 -> length l2 = n.
Proof.
  unfold expand. destruct (Nat.eqb (length l) n) eqn:E.
  - intros [= <-]. apply Nat.eqb_eq, E.
  - destruct l as [|a [|b l]]; try discriminate.
    intros [= <-]. apply repeat_length.
Qed.

Lemma coeff_per_column_length (gc : group_coeff) (c : nat) (g : list R) :
  coeff_per_column gc c = Ok g -> length g = c.
Proof.
  destruct gc as [a|v]; simpl.
  - intros [= <-]. apply repeat_length.
  - apply expand_length.
Qed.

(** ** Norms *)

Lemma sum_sq_nonneg (l : list R) : 0 <= sum_sq l.
Proof.
  unfold sum_sq; induction l as [|a l IH]; simpl; [lra|].
  pose proof (Rle_0_sqr a) as Ha. unfold Rsqr in Ha. lra.
Qed.

Lemma norm2_nonneg (l : list R) : 0 <= norm2 l.
Proof.
  apply sqrt_pos.
Qed.

Lemma sum_sq_scale (k : R) (l : list R) :
  sum_sq (map (fun w => w * k) l) = k * k * sum_sq l.
Proof.
  unfold sum_sq; induction l as [|a l IH]; simpl; [lra|].
  rewrite IH. ring.
Qed.

Lemma norm2_scale (k : R) (l : list R) :
  0 <= k -> norm2 (map (fun w => w * k) l) = k * norm2 l.
Proof.
  intros Hk. unfold norm2. rewrite sum_sq_scale.
  rewrite sqrt_mult_alt by nra.
  rewrite sqrt_square by exact Hk. reflexivity.
Qed.

Lemma length_norm_dim0 (W : tensor R) : length (norm_dim0 W) = ncols W.
Proof.
  unfold norm_dim0. rewrite length_map, length_seq. reflexivity.
Qed.

Lemma nth_norm_dim0 (W : tensor R) (j : nat) :
  (j < ncols W)%nat -> nth j (norm_dim0 W) 0 = norm2 (column 0 W j).
Proof.
  intros Hj. unfold norm_dim0.
  rewrite (nth_indep _ 0 (norm2 (column 0 W 0)))
    by (rewrite length_map, length_seq; exact Hj).
  rewrite (map_nth (fun j => norm2 (column 0 W j)) (seq 0 (ncols W)) 0%nat j).
  rewrite seq_nth by exact Hj. reflexivity.
Qed.

(** ** Arithmetic of one entry of the group operator *)

Lemma quotient_sign (n g : R) :
  0 < g -> 0 <= n -> (0 < n -> 0 < n / g) /\ (n = 0 -> n / g = 0).
Proof.
  intros Hg Hn; split.
  - intros Hpos. apply Rdiv_lt_0_compat; assumption.
  - intros ->. unfold Rdiv. ring.
Qed.

(** The divisor is never zero: it is the quotient where that is positive and
    1 where the norm is zero. *)
Lemma divisor_nonzero (n g : R) :
  0 < g -> 0 <= n ->
  n / g + float_of_bool (negb (Rgtb (n / g) 0)) <> 0 /\
  (n = 0 -> n / g + float_of_bool (negb (Rgtb (n / g) 0)) = 1).
Proof.
  intros Hg Hn. destruct (quotient_sign n g Hg Hn) as [Hpos Hzero].
  unfold Rgtb. destruct (Rlt_dec 0 (n / g)) as [Hq|Hq]; simpl.
  - split; [lra|]. intros E. rewrite (Hzero E) in Hq. lra.
  - assert (n = 0) as E.
    { destruct (Req_dec_T n 0) as [E|E]; [exact E|].
      exfalso; apply Hq, Hpos; lra. }
    rewrite (Hzero E). split; [lra|]. intros _; lra.
Qed.

Lemma group_entry_pruned (n g w : R) :
  n <= g -> group_entry n g w = 0.
Proof.
  intros Hle. unfold group_entry, Rgtb.
  destruct (Rlt_dec g n) as [H|H]; [lra|]. simpl. ring.
Qed.

Lemma group_entry_shrunk (n g w : R) :
  0 < g -> g < n -> group_entry n g w = w * (1 - g / n).
Proof.
  intros Hg Hlt. unfold group_entry, Rgtb.
  assert (Hq : 0 < n / g) by (apply Rdiv_lt_0_compat; lra).
  destruct (Rlt_dec g n) as [_|H]; [|lra].
  destruct (Rlt_dec 0 (n / g)) as [_|H]; [|lra].
  simpl. field. lra.
Qed.

Lemma nth_map_in {A B : Type} (f : A -> B) (l : list A) (j : nat) (dA : A)
    (dB : B) :
  (j < length l)%nat -> nth j (map f l) dB = f (nth j l dA).
Proof.
  intros Hj. rewrite (nth_indep _ dB (f dA)) by (rewrite length_map; exact Hj).
  apply map_nth.
Qed.

Lemma scaled_nonzero (nv g : list R) :
  Forall (fun n => 0 <= n) nv -> Forall (fun x => 0 < x) g ->
  Forall (fun x => x <> 0)
         (map (fun q => q + float_of_bool (negb (Rgtb q 0)))
              (zip_with Rdiv nv g)).
Proof.
  intros Hnv; revert g; induction Hnv as [|n nv Hn _ IH]; intros g Hg.
  - constructor.
  - destruct Hg as [|x g Hx Hg]; simpl; constructor.
    + apply (divisor_nonzero n x Hx Hn).
    + apply IH, Hg.
Qed.

Lemma norm_dim0_nonneg (W : tensor R) : Forall (fun n => 0 <= n) (norm_dim0 W).
Proof.
  apply Forall_forall. intros x Hin. unfold norm_dim0 in Hin.
  apply in_map_iff in Hin. destruct Hin as (j & <- & _). apply norm2_nonneg.
Qed.

(** ** ProxOperGroupL2 *)

(** The call on a well-formed block with positive coefficients: it returns,
    no divisor is zero, and every column is mapped entry by entry. *)
Lemma ProxOperGroupL2_call_columns (self : ProxOperGroupL2) (W : tensor R)
    (g : list R) :
  wf W ->
  coeff_per_column (gl2_group_coeff self) (ncols W) = Ok g ->
  Forall (fun x => 0 < x) g ->
  exists c s,
    ProxOperGroupL2_call self W = Ok c /\
    scaled_norm_vector (norm_dim0 W) g = Ok s /\
    Forall (fun x => x <> 0) s /\
    wf (returned c) /\
    shape (returned c) = shape W /\
    arg_after c = (if gl2_inplace self then returned c else W) /\
    forall j, (j < ncols W)%nat ->
      nth j s 0 =
        (let q := norm2 (column 0 W j) / nth j g 0 in
         q + float_of_bool (negb (Rgtb q 0))) /\
      column 0 (returned c) j =
        map (group_entry (norm2 (column 0 W j)) (nth j g 0)) (column 0 W j).
Proof.
  intros [Hrows Hcols] Hg Hpos.
  pose proof (coeff_per_column_length _ _ _ Hg) as Hlen.
  assert (Hnz : Forall (fun x => x <> 0) g).
  { eapply Forall_impl; [|exact Hpos]. simpl; intros; lra. }
  set (s := map (fun q => q + float_of_bool (negb (Rgtb q 0)))
                (zip_with Rdiv (norm_dim0 W) g)).
  assert (Hs : scaled_norm_vector (norm_dim0 W) g = Ok s).
  { unfold scaled_norm_vector. rewrite zip_withM_div_ok by exact Hnz.
    reflexivity. }
  assert (Hsnz : Forall (fun x => x <> 0) s).
  { apply scaled_nonzero; [apply norm_dim0_nonneg | exact Hpos]. }
  assert (Hslen : length s = ncols W).
  { unfold s. rewrite length_map, length_zip_with, length_norm_dim0, Hlen.
    apply Nat.min_id. }
  assert (Hquot : tmap_colsM div W s = Ok (tmap_cols Rdiv W s)).
  { unfold tmap_colsM, tmap_cols.
    rewrite (mapM_ok_map _ (fun r => zip_with Rdiv r s)); [reflexivity|].
    apply Forall_forall. intros r _. apply zip_withM_div_ok, Hsnz. }
  unfold ProxOperGroupL2_call. rewrite Hg; simpl. rewrite Hs; simpl.
  rewrite Hquot; simpl.
  eexists; exists s. split; [reflexivity|]. simpl.
  split; [reflexivity|]. split; [exact Hsnz|].
  set (m := map float_of_bool (zip_with Rgtb (norm_dim0 W) g)).
  assert (Hmlen : length m = ncols W).
  { unfold m. rewrite length_map, length_zip_with, length_norm_dim0, Hlen.
    apply Nat.min_id. }
  unfold wf, shape, column, tmap_cols, tmap2; simpl.
  rewrite zip_with_map_r, map_map.
  split.
  { split.
    - rewrite length_map. exact Hrows.
    - apply Forall_map. eapply Forall_impl; [|exact Hcols].
      intros r Hr; simpl. rewrite !length_zip_with, Hr, Hslen, Hmlen. lia. }
  split; [reflexivity|]. split; [reflexivity|].
  intros j Hj. fold (column 0 W j).
  assert (Hsj : nth j s 0 =
                (let q := norm2 (column 0 W j) / nth j g 0 in
                 q + float_of_bool (negb (Rgtb q 0)))).
  { unfold s. rewrite (nth_map_in _ _ _ 0)
      by (rewrite length_zip_with, length_norm_dim0, Hlen; lia).
    rewrite (nth_zip_with _ _ _ _ 0 0)
      by (rewrite ?length_norm_dim0, ?Hlen; lia).
    rewrite nth_norm_dim0 by exact Hj. reflexivity. }
  split; [exact Hsj|].
  unfold column. rewrite !map_map.
  apply map_ext_in. intros r Hin. fold (column 0 W j).
  assert (Hr : length r = ncols W).
  { rewrite Forall_forall in Hcols. apply Hcols, Hin. }
  rewrite (nth_zip_with _ _ _ _ 0 0)
    by (rewrite ?length_zip_with, ?Hr, ?Hslen, ?Hmlen; lia).
  rewrite (nth_zip_with _ _ _ _ 0 0)
    by (rewrite ?length_zip_with, ?Hr, ?Hslen; lia).
  rewrite (nth_zip_with _ _ _ _ 0 0) by (rewrite ?Hr, ?Hslen; lia).
  rewrite Hsj. unfold m.
  rewrite (nth_map_in _ _ _ false)
    by (rewrite length_zip_with, length_norm_dim0, Hlen; lia).
  rewrite (nth_zip_with _ _ _ _ 0 0)
    by (rewrite ?length_norm_dim0, ?Hlen; lia).
  rewrite nth_norm_dim0 by exact Hj. reflexivity.
Qed.

Lemma sum_sq_zero (l : list R) : sum_sq l = 0 -> Forall (fun w => w = 0) l.
Proof.
  induction l as [|a l IH]; intros E; constructor.
  - unfold sum_sq in E; simpl in E. fold (sum_sq l) in E.
    pose proof (sum_sq_nonneg l). nra.
  - apply IH. unfold sum_sq in E; simpl in E. fold (sum_sq l) in E.
    pose proof (sum_sq_nonneg l). nra.
Qed.

Lemma norm2_zero (l : list R) : norm2 l = 0 -> Forall (fun w => w = 0) l.
Proof.
  intros E. apply sum_sq_zero. apply sqrt_eq_0; [apply sum_sq_nonneg | exact E].
Qed.

Lemma map_zero_id (l : list R) :
  Forall (fun w => w = 0) l -> map (fun _ => 0) l = l.
Proof.
  induction 1 as [|a l Ha _ IH]; simpl; congruence.
Qed.

Lemma Forall_nth_pos (g : list R) (j : nat) :
  Forall (fun x => 0 < x) g -> (j < length g)%nat -> 0 < nth j g 0.
Proof.
  intros Hg Hj. rewrite Forall_forall in Hg. apply Hg, nth_In, Hj.
Qed.

(** C2.  For a real block and positive per-group coefficients,
    [ProxOperGroupL2] makes a column whose norm [n] is at most its coefficient
    (equal included) the zero column, and scales a column whose norm exceeds
    its coefficient [g] by [1 - g/n], so that the norm of the new column is
    [n - g]. *)
Theorem C2_ProxOperGroupL2_shrink_or_zero (self : ProxOperGroupL2)
    (W : tensor R) (g : list R) :
  wf W ->
  coeff_per_column (gl2_group_coeff self) (ncols W) = Ok g ->
  Forall (fun x => 0 < x) g ->
  exists c,
    ProxOperGroupL2_call self W = Ok c /\
    shape (returned c) = shape W /\
    arg_after c = (if gl2_inplace self then returned c else W) /\
    forall j, (j < ncols W)%nat ->
      let n := norm2 (column 0 W j) in
      let gj := nth j g 0 in
      (n <= gj ->
       column 0 (returned c) j = map (fun _ => 0) (column 0 W j)) /\
      (n > gj ->
       column 0 (returned c) j = map (fun w => w * (1 - gj / n)) (column 0 W j)
       /\ norm2 (column 0 (returned c) j) = n - gj).
Proof.
  intros Hwf Hg Hpos.
  destruct (ProxOperGroupL2_call_columns self W g Hwf Hg Hpos)
    as (c & s & Hc & _ & _ & _ & Hshape & Harg & Hcol).
  exists c. split; [exact Hc|]. split; [exact Hshape|]. split; [exact Harg|].
  intros j Hj n gj. destruct (Hcol j Hj) as [_ Hj'].
  assert (Hgj : 0 < gj).
  { apply Forall_nth_pos; [exact Hpos|].
    rewrite (coeff_per_column_length _ _ _ Hg). exact Hj. }
  split.
  - intros Hle. rewrite Hj'. apply map_ext. intros w.
    apply group_entry_pruned, Hle.
  - intros Hgt.
    assert (E : column 0 (returned c) j =
                map (fun w => w * (1 - gj / n)) (column 0 W j)).
    { rewrite Hj'. apply map_ext. intros w.
      apply group_entry_shrunk; [exact Hgj | exact Hgt]. }
    split; [exact E|].
    rewrite E, norm2_scale.
    + fold n. field. lra.
    + assert (gj / n < 1).
      { apply (Rmult_lt_reg_r n); [lra|]. unfold Rdiv.
        rewrite Rmult_assoc, Rinv_l by lra. lra. }
      lra.
Qed.

Lemma norm2_3_4 : norm2 [3; 4] = 5.
Proof.
  unfold norm2, sum_sq; simpl.
  replace (3 * 3 + (4 * 4 + 0)) with (5 * 5) by lra.
  apply sqrt_square; lra.
Qed.

Lemma C2_witness :
  wf W_group /\
  coeff_per_column (gl2_group_coeff prox_group) (ncols W_group) = Ok [1; 1] /\
  Forall (fun x => 0 < x) [1; 1] /\
  exists c,
    ProxOperGroupL2_call prox_group W_group = Ok c /\
    norm2 (column 0 (returned c) 0) = 5 - 1 /\
    column 0 (returned c) 1 = [0; 0].
Proof.
  assert (Hwf : wf W_group) by (split; [reflexivity | repeat constructor]).
  assert (Hg : coeff_per_column (gl2_group_coeff prox_group) (ncols W_group)
               = Ok [1; 1]) by reflexivity.
  assert (Hpos : Forall (fun x => 0 < x) [1; 1]) by (repeat constructor; lra).
  split; [exact Hwf|]. split; [exact Hg|]. split; [exact Hpos|].
  destruct (C2_ProxOperGroupL2_shrink_or_zero prox_group W_group [1; 1]
              Hwf Hg Hpos) as (c & Hc & _ & _ & Hcol).
  exists c. split; [exact Hc|]. split.
  - destruct (Hcol 0%nat) as [_ Hshrunk]; [simpl; lia|].
    simpl in Hshrunk. change (column 0 W_group 0) with [3; 4] in Hshrunk.
    rewrite norm2_3_4 in Hshrunk.
    destruct Hshrunk as [_ Hn]; [lra|]. exact Hn.
  - destruct (Hcol 1%nat) as [Hpruned _]; [simpl; lia|].
    simpl in Hpruned. apply Hpruned.
    change (column 0 W_group 1) with [0; 0].
    unfold norm2, sum_sq; simpl.
    replace (0 * 0 + (0 * 0 + 0)) with 0 by lra. rewrite sqrt_0. lra.
Defined.

(** C3.  On a block that has a column of norm zero, with positive
    coefficients, [ProxOperGroupL2] returns: no divisor is zero (the divisor of
    the zero column is 1), the zero column comes back as the zero column, and
    a second call returns it as the zero column again. *)
Theorem C3_ProxOperGroupL2_zero_norm_column (self : ProxOperGroupL2)
    (W : tensor R) (g : list R) (j : nat) :
  wf W ->
  coeff_per_column (gl2_group_coeff self) (ncols W) = Ok g ->
  Forall (fun x => 0 < x) g ->
  (j < ncols W)%nat ->
  norm2 (column 0 W j) = 0 ->
  exists c s,
    ProxOperGroupL2_call self W = Ok c /\
    scaled_norm_vector (norm_dim0 W) g = Ok s /\
    Forall (fun x => x <> 0) s /\
    nth j s 0 = 1 /\
    column 0 (returned c) j = column 0 W j /\
    Forall (fun w => w = 0) (column 0 (returned c) j) /\
    exists c2,
      ProxOperGroupL2_call self (returned c) = Ok c2 /\
      column 0 (returned c2) j = column 0 (returned c) j /\
      Forall (fun w => w = 0) (column 0 (returned c2) j).
Proof.
  intros Hwf Hg Hpos Hj Hn.
  pose proof (norm2_zero _ Hn) as Hzero.
  assert (Hgj : 0 < nth j g 0).
  { apply Forall_nth_pos; [exact Hpos|].
    rewrite (coeff_per_column_length _ _ _ Hg). exact Hj. }
  destruct (ProxOperGroupL2_call_columns self W g Hwf Hg Hpos)
    as (c & s & Hc & Hs & Hsnz & Hwf' & Hshape & _ & Hcol).
  destruct (Hcol j Hj) as [Hsj Hcj].
  assert (E : column 0 (returned c) j = column 0 W j).
  { rewrite Hcj. transitivity (map (fun _ : R => 0) (column 0 W j)).
    - apply map_ext. intros w. apply group_entry_pruned. lra.
    - apply map_zero_id, Hzero. }
  exists c, s. split; [exact Hc|]. split; [exact Hs|]. split; [exact Hsnz|].
  split.
  { rewrite Hsj, Hn. simpl.
    apply (divisor_nonzero 0 (nth j g 0) Hgj (Rle_refl 0)). reflexivity. }
  split; [exact E|]. split; [rewrite E; exact Hzero|].
  injection Hshape as Hr' Hc'.
  assert (Hg' : coeff_per_column (gl2_group_coeff self) (ncols (returned c))
                = Ok g) by (rewrite Hc'; exact Hg).
  assert (Hj' : (j < ncols (returned c))%nat) by (rewrite Hc'; exact Hj).
  destruct (ProxOperGroupL2_call_columns self (returned c) g Hwf' Hg' Hpos)
    as (c2 & s2 & Hc2 & _ & _ & _ & _ & _ & Hcol2).
  destruct (Hcol2 j Hj') as [_ Hcj2].
  assert (Hzero' : Forall (fun w => w = 0) (column 0 (returned c) j))
    by (rewrite E; exact Hzero).
  assert (E2 : column 0 (returned c2) j = column 0 (returned c) j).
  { rewrite Hcj2.
    transitivity (map (fun _ : R => 0) (column 0 (returned c) j)).
    - apply map_ext. intros w. apply group_entry_pruned.
      rewrite E, Hn. lra.
    - apply map_zero_id, Hzero'. }
  exists c2. split; [exact Hc2|]. split; [exact E2|].
  rewrite E2. exact Hzero'.
Qed.

Lemma C3_witness :
  wf W_group /\
  coeff_per_column (gl2_group_coeff prox_group) (ncols W_group) = Ok [1; 1] /\
  Forall (fun x => 0 < x) [1; 1] /\
  (1 < ncols W_group)%nat /\
  norm2 (column 0 W_group 1) = 0 /\
  exists c,
    ProxOperGroupL2_call prox_group W_group = Ok c /\
    column 0 (returned c) 1 = [0; 0].
Proof.
  assert (Hwf : wf W_group) by (split; [reflexivity | repeat constructor]).
  assert (Hg : coeff_per_column (gl2_group_coeff prox_group) (ncols W_group)
               = Ok [1; 1]) by reflexivity.
  assert (Hpos : Forall (fun x => 0 < x) [1; 1]) by (repeat constructor; lra).
  assert (Hj : (1 < ncols W_group)%nat) by (simpl; lia).
  assert (Hn : norm2 (column 0 W_group 1) = 0).
  { change (column 0 W_group 1) with [0; 0]. unfold norm2, sum_sq; simpl.
    replace (0 * 0 + (0 * 0 + 0)) with 0 by lra. apply sqrt_0. }
  split; [exact Hwf|]. split; [exact Hg|]. split; [exact Hpos|].
  split; [exact Hj|]. split; [exact Hn|].
  destruct (C3_ProxOperGroupL2_zero_norm_column prox_group W_group [1; 1] 1
              Hwf Hg Hpos Hj Hn) as (c & s & Hc & _ & _ & _ & E & _).
  exists c. split; [exact Hc | exact E].
Defined.

(** ** Entries and columns *)

Lemma tget_column (T : tensor R) (i j : nat) :
  wf T -> (i < nrows T)%nat -> (j < ncols T)%nat ->
  tget T i j = Some (nth i (column 0 T j) 0).
Proof.
  intros [Hr Hc] Hi Hj. unfold tget, column.
  rewrite (nth_map_in _ _ _ []) by (rewrite Hr; exact Hi).
  rewrite (nth_error_nth' (rows T) []) by (rewrite Hr; exact Hi).
  apply nth_error_nth'.
  rewrite Forall_forall in Hc. rewrite (Hc (nth i (rows T) [])); [exact Hj|].
  apply nth_In. rewrite Hr; exact Hi.
Qed.

Lemma length_column (T : tensor R) (j : nat) :
  wf T -> length (column 0 T j) = nrows T.
Proof.
  intros [Hr _]. unfold column. rewrite length_map. exact Hr.
Qed.

(** A column is known from its entries. *)
Lemma column_from_entries (T : tensor R) (j : nat) (x : R) :
  wf T -> (j < ncols T)%nat ->
  (forall i, (i < nrows T)%nat -> tget T i j = Some x) ->
  Forall (fun w => w = x) (column 0 T j).
Proof.
  intros Hwf Hj Hent. apply Forall_forall. intros w Hin.
  destruct (In_nth _ _ 0 Hin) as (i & Hi & <-).
  rewrite (length_column T j Hwf) in Hi.
  pose proof (tget_column T i j Hwf Hi Hj) as E.
  rewrite (Hent i Hi) in E. congruence.
Qed.

Lemma Forall_length_zip_with {A B C : Type} (f : A -> B -> C)
    (l : list (list A)) (l2 : list (list B)) (n : nat) :
  Forall (fun r => length r = n) l -> Forall (fun r => length r = n) l2 ->
  Forall (fun r => length r = n) (zip_with (zip_with f) l l2).
Proof.
  intros H; revert l2; induction H as [|r l Hr _ IH]; intros [|r2 l2] H2;
    simpl; constructor.
  - inversion H2; subst. rewrite length_zip_with. lia.
  - inversion H2; subst. apply IH; assumption.
Qed.

Lemma wf_tmap2 {A B C : Type} (f : A -> B -> C) (T : tensor A) (U : tensor B) :
  wf T -> wf U -> shape U = shape T -> wf (tmap2 f T U).
Proof.
  intros [Hr Hc] [Hr' Hc'] [= Er Ec]. split; simpl.
  - rewrite length_zip_with, Hr, Hr', Er. apply Nat.min_id.
  - rewrite Ec in Hc'. apply Forall_length_zip_with; assumption.
Qed.

Lemma norm2_of_zero (l : list R) : Forall (fun w => w = 0) l -> norm2 l = 0.
Proof.
  intros H. unfold norm2.
  replace (sum_sq l) with 0; [apply sqrt_0|].
  unfold sum_sq. induction H as [|a l Ha _ IH]; simpl; [reflexivity|].
  rewrite <- IH, Ha. ring.
Qed.

(** ** get_prox_operators *)

(** The L1 operators of the registry work in place. *)
Lemma ProxOperL1_inplace_same_object (alpha : R) (I : option (tensor Z))
    (W : tensor R) (c : called) :
  ProxOperL1_call (ProxOperL1_init alpha I true) W = Ok c ->
  same_object c = true /\ arg_after c = returned c.
Proof.
  unfold ProxOperL1_call.
  destruct (match l1_I (ProxOperL1_init alpha I true) with
            | Some M => _
            | None => _
            end) as [[[g l] j]|e]; simpl; [|discriminate].
  intros [= <-]. split; reflexivity.
Qed.

(** With an inner operator that works in place, the composition is the outer
    operator on what the inner one returns. *)
Lemma compose_inplace (outer inner : operator) (W : tensor R) :
  (forall c, inner W = Ok c -> same_object c = true) ->
  compose outer inner W = (c1 <- inner W ;; outer (returned c1)).
Proof.
  intros Hin. unfold compose. destruct (inner W) as [c1|e]; simpl; auto.
  rewrite (Hin c1 eq_refl). destruct (outer (returned c1)) as [[a r b]|e];
    reflexivity.
Qed.

Lemma wf_l1_update (alpha : R) (W : tensor R) (G L J : tensor bool) :
  wf W -> wf G -> wf L -> wf J ->
  shape G = shape W -> shape L = shape W -> shape J = shape W ->
  wf (l1_update alpha W G L J).
Proof.
  intros HW HG HL HJ EG EL EJ. unfold l1_update.
  repeat (apply wf_tmap2 || apply wf_tmap || assumption);
    unfold shape in *; simpl; congruence.
Qed.

Lemma ProxOperL1_no_mask_wf (alpha : R) (W : tensor R) (inplace : bool)
    (c : called) :
  ProxOperL1_call (ProxOperL1_init alpha None inplace) W = Ok c ->
  wf W -> wf (returned c).
Proof.
  unfold ProxOperL1_call, ProxOperL1_init; simpl. intros [= <-] HW; simpl.
  apply wf_l1_update; try reflexivity;
    repeat (apply wf_tmap2 || apply wf_tmap || assumption || reflexivity).
Qed.

Lemma Forall_eq_repeat (x : R) (l : list R) :
  Forall (fun w => w = x) l -> l = repeat x (length l).
Proof.
  induction 1 as [|a l Ha _ IH]; simpl; congruence.
Qed.

Lemma soft_threshold_below (alpha w : R) :
  0 < alpha -> Rabs w < alpha -> soft_threshold alpha w = 0.
Proof.
  intros Ha Hw. unfold soft_threshold. revert Hw. r_cases.
Qed.

(** A zero column stays a zero column under the group operator. *)
Lemma group_zero_column (self : ProxOperGroupL2) (W : tensor R) (g : list R)
    (j : nat) :
  wf W ->
  coeff_per_column (gl2_group_coeff self) (ncols W) = Ok g ->
  Forall (fun x => 0 < x) g ->
  (j < ncols W)%nat ->
  Forall (fun w => w = 0) (column 0 W j) ->
  exists c,
    ProxOperGroupL2_call self W = Ok c /\
    column 0 (returned c) j = column 0 W j.
Proof.
  intros Hwf Hg Hpos Hj Hzero.
  destruct (ProxOperGroupL2_call_columns self W g Hwf Hg Hpos)
    as (c & s & Hc & _ & _ & _ & _ & _ & Hcol).
  destruct (Hcol j Hj) as [_ Hcj].
  exists c. split; [exact Hc|]. rewrite Hcj.
  transitivity (map (fun _ : R => 0) (column 0 W j)).
  - apply map_ext. intros w. apply group_entry_pruned.
    rewrite (norm2_of_zero _ Hzero).
    assert (0 < nth j g 0); [|lra].
    apply Forall_nth_pos; [exact Hpos|].
    rewrite (coeff_per_column_length _ _ _ Hg). exact Hj.
  - apply map_zero_id, Hzero.
Qed.

(** C4.  The operators that the registry builds for the annotated and the
    sparse block are the group operator applied to what the L1 operator
    returns: L1 first, the group step second.  For a 5x2 sparse block with a
    column of entries 0.5, [lambda2 = 1] and [lambda3 = 1], that column is
    zero after the L1 step, so it reaches the group step as the zero column
    (and leaves it as the zero column). *)
Theorem C4_registry_L1_then_group (I : option (tensor Z))
    (lambda1 lambda2 lambda3 : option R) (l1 l2 : R) :
  (exists op,
     lookup "annotated"%string
            (get_prox_operators I (Some l1) lambda2 lambda3) = Some op /\
     forall W, op W = (c1 <- p_l1_annot I l1 W ;; p_gr lambda3 (returned c1)))
  /\
  (exists op,
     lookup "sparse"%string
            (get_prox_operators I lambda1 (Some l2) lambda3) = Some op /\
     forall W, op W = (c1 <- p_l1_sparse l2 W ;; p_gr lambda3 (returned c1)))
  /\
  (forall W j,
     wf W -> shape W = (5, 2)%nat -> (j < 2)%nat ->
     column 0 W j = repeat (1 / 2) 5 ->
     exists op c1 c,
       lookup "sparse"%string
              (get_prox_operators I lambda1 (Some 1) (Some 1)) = Some op /\
       p_l1_sparse 1 W = Ok c1 /\
       column 0 (returned c1) j = repeat 0 5 /\
       p_gr (Some 1) (returned c1) = Ok c /\
       op W = Ok c /\
       column 0 (returned c) j = repeat 0 5).
Proof.
  assert (Hannot : forall W c, p_l1_annot I l1 W = Ok c -> same_object c = true).
  { intros W c Hc. apply (ProxOperL1_inplace_same_object l1 I W c Hc). }
  assert (Hsparse : forall a W c,
             p_l1_sparse a W = Ok c -> same_object c = true).
  { intros a W c Hc. apply (ProxOperL1_inplace_same_object a None W c Hc). }
  split; [|split].
  - destruct lambda2; (eexists; split; [reflexivity|]);
      intros W; apply compose_inplace, Hannot.
  - destruct lambda1; (eexists; split; [reflexivity|]);
      intros W; apply compose_inplace, Hsparse.
  - intros W j Hwf Hshape Hj Hcol. injection Hshape as Hr Hc.
    assert (H1 : 0 < 1) by lra.
    destruct (ProxOperL1_call_no_mask 1 W true H1)
      as (c1 & Hc1 & Hs1 & _ & Hent).
    injection Hs1 as Hr1 Hcc1.
    pose proof (ProxOperL1_no_mask_wf 1 W true c1 Hc1 Hwf) as Hwf1.
    assert (Hz : Forall (fun w => w = 0) (column 0 (returned c1) j)).
    { apply column_from_entries; [exact Hwf1 | lia |].
      intros i Hi. rewrite Hent, (tget_column W i j Hwf) by lia.
      rewrite Hcol, nth_repeat_lt by lia. simpl. f_equal.
      apply soft_threshold_below; [lra|].
      rewrite Rabs_pos_eq; lra. }
    assert (Hrep : column 0 (returned c1) j = repeat 0 5).
    { rewrite (Forall_eq_repeat 0 _ Hz), (length_column _ _ Hwf1).
      f_equal. lia. }
    destruct (group_zero_column (ProxOperGroupL2_init 1 None true)
                (returned c1) (repeat 1 (ncols (returned c1))) j Hwf1)
      as (c & Hcall & Hcj); try exact Hz.
    + reflexivity.
    + apply Forall_forall. intros x Hin. apply repeat_spec in Hin. lra.
    + lia.
    + exists (compose (p_gr (Some 1)) (p_l1_sparse 1)), c1, c.
      split; [destruct lambda1; reflexivity|].
      split; [exact Hc1|]. split; [exact Hrep|]. split; [exact Hcall|].
      split.
      * rewrite compose_inplace by (apply Hsparse).
        change (p_l1_sparse 1 W) with
          (ProxOperL1_call (ProxOperL1_init 1 None true) W).
        rewrite Hc1. exact Hcall.
      * rewrite Hcj. exact Hrep.
Qed.

Lemma C4_witness :
  wf W_sparse /\ shape W_sparse = (5, 2)%nat /\ (0 < 2)%nat /\
  column 0 W_sparse 0 = repeat (1 / 2) 5 /\
  exists c1 c,
    p_l1_sparse 1 W_sparse = Ok c1 /\
    column 0 (returned c1) 0 = repeat 0 5 /\
    p_gr (Some 1) (returned c1) = Ok c /\
    column 0 (returned c) 0 = repeat 0 5.
Proof.
  assert (Hwf : wf W_sparse) by (split; [reflexivity | repeat constructor]).
  assert (Hs : shape W_sparse = (5, 2)%nat) by reflexivity.
  assert (Hj : (0 < 2)%nat) by lia.
  assert (Hcol : column 0 W_sparse 0 = repeat (1 / 2) 5) by reflexivity.
  split; [exact Hwf|]. split; [exact Hs|]. split; [exact Hj|].
  split; [exact Hcol|].
  destruct (C4_registry_L1_then_group None None None None 1 1)
    as (_ & _ & Hex).
  destruct (Hex W_sparse 0%nat Hwf Hs Hj Hcol)
    as (op & c1 & c & _ & Hc1 & Hz & Hc & _ & Hzc).
  exists c1, c. repeat split; assumption.
Defined.

(** ** CompositeLinearDecoder.forward *)


Lemma zip_with_app_nil (l : list (list R)) :
  zip_with (@app R) (repeat [] (length l)) l = l.
Proof.
  induction l as [|r l IH]; simpl; congruence.
Qed.

(** Concatenating one well-formed tensor gives that tensor. *)
Lemma cat_single (v : tensor R) : wf v -> cat [v] = Ok v.
Proof.
  destruct v as [r c rs]. intros [Hr _]. simpl in Hr. subst r.
  unfold cat; simpl. rewrite Nat.eqb_refl; simpl.
  rewrite Nat.add_0_r, zip_with_app_nil. reflexivity.
Qed.

(** C10.  For a decoder with exactly one block, the branch of [forward] that
    multiplies by the transpose of that block returns what the branch that
    concatenates the tuple of blocks before transposing returns. *)
Theorem C10_single_block_path_agrees (self : weight_dict) (x : tensor R) :
  length self = 1%nat -> Forall wf (values self) ->
  exists v,
    values self = [v] /\
    forward self x = forward_single v x /\
    forward_general (values self) x = forward_single v x.
Proof.
  intros Hlen Hwf. destruct self as [|[k v] [|kv self]]; try discriminate.
  exists v. simpl in *. split; [reflexivity|]. split; [reflexivity|].
  unfold forward_general, forward_single.
  rewrite cat_single by (inversion Hwf; assumption). reflexivity.
Qed.

Lemma C10_witness :
  length decoder_sparse = 1%nat /\ Forall wf (values decoder_sparse) /\
  forward_general (values decoder_sparse) x_example =
  forward_single W_sparse x_example.
Proof.
  assert (Hlen : length decoder_sparse = 1%nat) by reflexivity.
  assert (Hwf : Forall wf (values decoder_sparse)).
  { repeat constructor. }
  split; [exact Hlen|]. split; [exact Hwf|].
  destruct (C10_single_block_path_agrees decoder_sparse x_example Hlen Hwf)
    as (v & Hv & _ & Hgen).
  injection Hv as <-. exact Hgen.
Defined.

Lemma fold_cat_length (vals : list (tensor R)) (acc : list (list R)) (n : nat) :
  length acc = n -> Forall (fun T => length (rows T) = n) vals ->
  length (fold_left (fun acc T => zip_with (@app R) acc (rows T)) vals acc) = n.
Proof.
  revert acc; induction vals as [|T vals IH]; intros acc Hacc Hall; simpl.
  - exact Hacc.
  - inversion Hall; subst. apply IH; [|assumption].
    rewrite length_zip_with. lia.
Qed.

(** Row [i] of the accumulator after all blocks were appended. *)
Lemma fold_cat_nth (vals : list (tensor R)) (acc : list (list R)) (n i : nat) :
  length acc = n -> Forall (fun T => length (rows T) = n) vals -> (i < n)%nat ->
  nth i (fold_left (fun acc T => zip_with (@app R) acc (rows T)) vals acc) [] =
  nth i acc [] ++ concat (map (fun T => nth i (rows T) []) vals).
Proof.
  revert acc; induction vals as [|T vals IH]; intros acc Hacc Hall Hi; simpl.
  - rewrite app_nil_r. reflexivity.
  - inversion Hall as [|T' vals' HT Hvals]; subst.
    rewrite IH; [|rewrite length_zip_with; lia|assumption|assumption].
    rewrite (nth_zip_with _ _ _ _ [] []) by lia.
    rewrite app_assoc. reflexivity.
Qed.

Lemma length_cat_row (vals : list (tensor R)) (n i : nat) :
  Forall (fun T => wf T /\ nrows T = n) vals -> (i < n)%nat ->
  length (concat (map (fun T => nth i (rows T) []) vals)) = total_cols vals.
Proof.
  intros Hall Hi. induction Hall as [|T vals [[Hr Hc] Hn] _ IH]; simpl.
  - reflexivity.
  - rewrite length_app, IH. f_equal.
    rewrite Forall_forall in Hc. apply Hc, nth_In. lia.
Qed.

Lemma Forall_rows_length (vals : list (tensor R)) (n : nat) :
  Forall (fun T => wf T /\ nrows T = n) vals ->
  Forall (fun T => length (rows T) = n) vals.
Proof.
  apply Forall_impl. intros T [[Hr _] Hn]. congruence.
Qed.

Lemma forallb_same_rows (vals : list (tensor R)) (n : nat) :
  Forall (fun T => wf T /\ nrows T = n) vals ->
  forallb (fun T => Nat.eqb (nrows T) n) vals = true.
Proof.
  intros Hall. apply forallb_forall. intros T HT.
  rewrite Forall_forall in Hall. apply Nat.eqb_eq, (Hall T HT).
Qed.

(** [torch.cat] of blocks over the same [n] genes: it succeeds, and row [i] of
    the result is row [i] of the first block followed by row [i] of the second
    one, and so on. *)
Lemma cat_same_rows (vals : list (tensor R)) (n : nat) :
  vals <> [] -> Forall (fun T => wf T /\ nrows T = n) vals ->
  exists W,
    cat vals = Ok W /\ wf W /\ nrows W = n /\ ncols W = total_cols vals /\
    forall i, (i < n)%nat ->
      nth i (rows W) [] = concat (map (fun T => nth i (rows T) []) vals).
Proof.
  intros Hne Hall. destruct vals as [|v vs]; [congruence|].
  assert (Hv : nrows v = n) by (inversion Hall; tauto).
  unfold cat. rewrite Hv, (forallb_same_rows _ _ Hall).
  pose proof (Forall_rows_length _ _ Hall) as Hlen.
  eexists; split; [reflexivity|].
  assert (Hrows : forall i, (i < n)%nat ->
            nth i (fold_left (fun acc T => zip_with (@app R) acc (rows T))
                             (v :: vs) (repeat [] n)) [] =
            concat (map (fun T => nth i (rows T) []) (v :: vs))).
  { intros i Hi.
    rewrite (fold_cat_nth _ _ n) by (try rewrite repeat_length; auto).
    rewrite nth_repeat. reflexivity. }
  assert (Hl : length (fold_left (fun acc T => zip_with (@app R) acc (rows T))
                                 (v :: vs) (repeat [] n)) = n).
  { apply fold_cat_length; [apply repeat_length|exact Hlen]. }
  repeat split; try exact Hl; try exact Hrows.
  cbn [ncols rows]. apply Forall_forall. intros r Hr.
  destruct (In_nth _ _ [] Hr) as (i & Hi & <-).
  rewrite Hrows by lia. apply (length_cat_row _ n); [exact Hall|lia].
Qed.

Lemma dot_scale (k : R) (u v : list R) :
  dot (map (Rmult k) u) v = k * dot u v.
Proof.
  unfold dot. revert v; induction u as [|a u IH]; intros [|b v]; simpl;
    try ring.
  rewrite IH. ring.
Qed.

(** [matmul] commutes with the multiplication of its left argument by a
    number. *)
Lemma matmul_scale (k : R) (x B : tensor R) :
  matmul (scale k x) B = (y <- matmul x B ;; Ok (scale k y)).
Proof.
  unfold matmul, scale, tmap; simpl.
  destruct (Nat.eqb (ncols x) (nrows B)); simpl; [|reflexivity].
  do 2 f_equal. rewrite !map_map. apply map_ext. intros xr.
  rewrite map_map. apply map_ext. intros j. apply dot_scale.
Qed.

Lemma forward_scale (k : R) (self : weight_dict) (x : tensor R) :
  forward self (scale k x) = (y <- forward self x ;; Ok (scale k y)).
Proof.
  unfold forward, forward_single, forward_general.
  destruct (values self) as [|v [|v' vs]]; try apply matmul_scale;
    destruct (cat _); simpl; try reflexivity; apply matmul_scale.
Qed.

Lemma map_nth_seq (r : list R) :
  map (fun j => nth j r 0) (seq 0 (length r)) = r.
Proof.
  apply (nth_ext _ _ 0 0).
  - rewrite length_map, length_seq. reflexivity.
  - intros n Hn. rewrite length_map, length_seq in Hn.
    rewrite (nth_map_in _ _ _ O) by (rewrite length_seq; exact Hn).
    rewrite seq_nth by exact Hn. reflexivity.
Qed.

(** Column [i] of the transpose is row [i]. *)
Lemma column_transpose (W : tensor R) (i : nat) :
  wf W -> (i < nrows W)%nat -> column 0 (transpose W) i = nth i (rows W) [].
Proof.
  intros [Hr Hc] Hi. unfold column, transpose; simpl.
  rewrite map_map.
  assert (Hlen : length (nth i (rows W) []) = ncols W).
  { rewrite Forall_forall in Hc. apply Hc, nth_In. lia. }
  rewrite <- Hlen at 1. rewrite <- (map_nth_seq (nth i (rows W) [])) at 2.
  apply map_ext. intros j.
  apply (nth_map_in (fun r => nth j r 0) (rows W) i [] 0). lia.
Qed.

(** The entries of a product. *)
Lemma matmul_entry (x B y : tensor R) (b i : nat) :
  wf x -> matmul x B = Ok y -> (b < nrows x)%nat -> (i < ncols B)%nat ->
  tget y b i = Some (dot (nth b (rows x) []) (column 0 B i)).
Proof.
  intros [Hr _] Hy Hb Hi. unfold matmul in Hy.
  destruct (Nat.eqb (ncols x) (nrows B)); [|discriminate].
  injection Hy as <-. unfold tget; simpl.
  rewrite nth_error_map, (nth_error_nth' _ []) by lia. simpl.
  rewrite nth_error_map, (nth_error_nth' _ O) by (rewrite length_seq; lia).
  simpl. rewrite seq_nth by lia. reflexivity.
Qed.

(** With well-formed blocks, [forward] is the concatenating branch whatever
    the number of blocks. *)
Lemma forward_as_general (self : weight_dict) (x : tensor R) :
  Forall wf (values self) -> forward self x = forward_general (values self) x.
Proof.
  intros Hwf. unfold forward.
  destruct (values self) as [|v [|v' vs]]; try reflexivity.
  unfold forward_general, forward_single.
  rewrite cat_single by (inversion Hwf; assumption). reflexivity.
Qed.

(** The keys of a decoder that [__init__] built are those of [TERMS_KEYS]
    whose size was given, in the order of [TERMS_KEYS]. *)
Lemma init_keys (randn : string -> nat -> nat -> tensor R) (n_vars : nat)
    (n_ann n_sparse n_dense : option nat) (self : weight_dict) :
  CompositeLinearDecoder_init randn n_vars n_ann n_sparse n_dense = Ok self ->
  keys self = present_keys n_ann n_sparse n_dense.
Proof.
  unfold CompositeLinearDecoder_init, present_keys.
  destruct n_ann, n_sparse, n_dense; simpl;
    repeat (match goal with
            | |- context [idiv_scalar ?T ?N] => destruct (idiv_scalar T N); simpl
            end);
    intros Heq; try discriminate; injection Heq as <-; reflexivity.
Qed.

(** C6.  For a decoder whose blocks are matrices over the same [n_vars] genes
    and an input [x] with one column per term, [forward] returns the product
    of [x] with the transpose of [W], where [W] is [torch.cat] of the blocks
    in the order of the dictionary: row [i] of [W] is row [i] of the first
    block followed by row [i] of the next one, and so on, and entry [(b, i)]
    of the output is the dot product of row [b] of [x] with row [i] of [W].
    The output has shape [(batch, n_vars)], and doubling [x] doubles it.  The
    order of the dictionary of a decoder built by [__init__] is the one of
    [TERMS_KEYS]: annotated, sparse, dense. *)
Theorem C6_forward_is_x_times_cat_transposed
    (self : weight_dict) (x : tensor R) (n_vars : nat) :
  self <> [] ->
  Forall (fun T => wf T /\ nrows T = n_vars) (values self) ->
  wf x -> ncols x = total_cols (values self) ->
  (forall randn n_ann n_sparse n_dense,
      CompositeLinearDecoder_init randn n_vars n_ann n_sparse n_dense = Ok self ->
      keys self = present_keys n_ann n_sparse n_dense) /\
  exists W y,
    cat (values self) = Ok W /\
    (forall i, (i < n_vars)%nat ->
       nth i (rows W) [] = concat (map (fun T => nth i (rows T) []) (values self))) /\
    matmul x (transpose W) = Ok y /\
    forward self x = Ok y /\
    shape y = (nrows x, n_vars) /\
    (forall b i, (b < nrows x)%nat -> (i < n_vars)%nat ->
       tget y b i = Some (dot (nth b (rows x) []) (nth i (rows W) []))) /\
    forward self (scale 2 x) = Ok (scale 2 y).
Proof.
  intros Hne Hall Hx Hcols. split.
  { intros randn a s d. apply init_keys. }
  assert (Hvals : values self <> []).
  { destruct self; [congruence|discriminate]. }
  destruct (cat_same_rows _ n_vars Hvals Hall)
    as (W & Hcat & HwfW & HnW & HcW & Hrows).
  assert (Hwf : Forall wf (values self)).
  { revert Hall. apply Forall_impl. tauto. }
  assert (Hmm : matmul x (transpose W) =
                Ok (mkTensor (nrows x) (nrows W)
                      (map (fun xr => map (fun j => dot xr (column 0 (transpose W) j))
                                          (seq 0 (nrows W)))
                           (rows x)))).
  { unfold matmul. cbn [nrows ncols transpose].
    rewrite Hcols, <- HcW, Nat.eqb_refl. reflexivity. }
  assert (Hfw : forward self x = matmul x (transpose W)).
  { rewrite forward_as_general by exact Hwf.
    unfold forward_general. rewrite Hcat. reflexivity. }
  eexists W, _. split; [exact Hcat|]. split; [exact Hrows|].
  split; [exact Hmm|]. split; [rewrite Hfw; exact Hmm|].
  split; [unfold shape; simpl; congruence|]. split.
  - intros b i Hb Hi.
    rewrite (matmul_entry x (transpose W) _ b i Hx Hmm Hb)
      by (simpl; lia).
    rewrite column_transpose by (auto; lia). reflexivity.
  - rewrite forward_scale, Hfw, Hmm. reflexivity.
Qed.

Lemma C6_witness :
  exists y,
    forward decoder_two_blocks x_two_blocks = Ok y /\
    shape y = (1%nat, 2%nat) /\
    forward decoder_two_blocks (scale 2 x_two_blocks) = Ok (scale 2 y).
Proof.
  assert (Hne : decoder_two_blocks <> []) by discriminate.
  assert (Hall : Forall (fun T => wf T /\ nrows T = 2%nat)
                        (values decoder_two_blocks)).
  { repeat constructor. }
  assert (Hx : wf x_two_blocks) by (repeat constructor).
  assert (Hcols : ncols x_two_blocks = total_cols (values decoder_two_blocks))
    by reflexivity.
  destruct (C6_forward_is_x_times_cat_transposed
              decoder_two_blocks x_two_blocks 2 Hne Hall Hx Hcols)
    as (_ & W & y & _ & _ & _ & Hfw & Hshape & _ & Hlin).
  exists y. split; [exact Hfw|]. split; [exact Hshape|exact Hlin].
Defined.

(** ** CompositeLinearDecoder.n_inactive_terms *)

Lemma filter_map_length {A B : Type} (f : A -> B) (p : B -> bool) (l : list A) :
  length (filter p (map f l)) = length (filter (fun a => p (f a)) l).
Proof.
  induction l as [|a l IH]; simpl; [reflexivity|].
  destruct (p (f a)); simpl; congruence.
Qed.

(** On norms, which are not negative, [~(n > 0)] selects the zeros. *)
Lemma count_not_positive_INR (v : list R) :
  Forall (fun n => 0 <= n) v ->
  count_not_positive v = INR (length (filter is_zero v)).
Proof.
  unfold count_not_positive.
  induction 1 as [|n v Hn _ IH]; [reflexivity|].
  cbn [map fold_right filter]. rewrite IH.
  unfold Rgtb, is_zero, float_of_bool.
  destruct (Rlt_dec 0 n), (Req_dec_T n 0); cbn [negb length]; try lra.
  rewrite S_INR. lra.
Qed.

Lemma count_not_positive_norm_dim0 (W : tensor R) :
  count_not_positive (norm_dim0 W) = INR (zero_norm_columns W).
Proof.
  rewrite count_not_positive_INR by apply norm_dim0_nonneg.
  unfold norm_dim0, zero_norm_columns. rewrite filter_map_length. reflexivity.
Qed.

Lemma fold_count_INR (vals : list (tensor R)) (a : R) :
  fold_left (fun n v => n + count_not_positive (norm_dim0 v)) vals a =
  a + INR (fold_right (fun v n => zero_norm_columns v + n)%nat O vals).
Proof.
  revert a; induction vals as [|v vals IH]; intros a; simpl.
  - lra.
  - rewrite IH, count_not_positive_norm_dim0, plus_INR. lra.
Qed.

Lemma int_of_float_INR (k : nat) : int_of_float (INR k) = Z.of_nat k.
Proof.
  unfold int_of_float. destruct (Rle_dec 0 (INR k)) as [_|Hneg].
  - apply Int_part_INR.
  - exfalso. apply Hneg, pos_INR.
Qed.

(** C7.  Whatever the blocks of the decoder hold, [n_inactive_terms] returns
    the integer that is the number of columns, over all blocks, whose L2 norm
    along the gene axis is exactly zero, and it leaves every block as it
    was. *)
Theorem C7_n_inactive_terms_counts_zero_columns (self : weight_dict) :
  n_inactive_terms self = (Z.of_nat (n_zero_norm_columns self), self).
Proof.
  unfold n_inactive_terms, n_zero_norm_columns.
  rewrite fold_count_INR, Rplus_0_l, int_of_float_INR. reflexivity.
Qed.

(** ** train_autoencoder: the check of the registry *)

Lemma contains_dense (I_ : option (tensor Z)) (lambda1 lambda2 lambda3 : option R) :
  contains (get_prox_operators I_ lambda1 lambda2 lambda3) "dense" = true.
Proof.
  unfold get_prox_operators. destruct lambda1, lambda2; reflexivity.
Qed.

Lemma contains_annotated (I_ : option (tensor Z))
    (lambda1 lambda2 lambda3 : option R) :
  contains (get_prox_operators I_ lambda1 lambda2 lambda3) "annotated" = false
  <-> lambda1 = None.
Proof.
  unfold get_prox_operators.
  destruct lambda1, lambda2; cbv [contains TERMS_KEY TERMS_KEYS nth setitem];
    simpl; split; intros; congruence.
Qed.

Lemma contains_sparse (I_ : option (tensor Z))
    (lambda1 lambda2 lambda3 : option R) :
  contains (get_prox_operators I_ lambda1 lambda2 lambda3) "sparse" = false
  <-> lambda2 = None.
Proof.
  unfold get_prox_operators.
  destruct lambda1, lambda2; cbv [contains TERMS_KEY TERMS_KEYS nth setitem];
    simpl; split; intros; congruence.
Qed.

Section Validation.

Context `{Collaborators}.

(** The check stops at the first key without an operator, and changes
    nothing. *)
Lemma validate_spec (prox_ops : list (string * operator))
    (term_keys : list string) (s : state) :
  validate prox_ops term_keys s =
  match missing_key prox_ops term_keys with
  | Some k =>
      (Raise (ValueError ("Provide regularization coefficient for " ++ k)%string),
       s)
  | None => (Ok tt, s)
  end.
Proof.
  unfold validate, missing_key.
  induction term_keys as [|k ks IH]; simpl; [reflexivity|].
  unfold bindM. destruct (contains prox_ops k); simpl.
  - unfold ret. exact IH.
  - reflexivity.
Qed.

End Validation.

Lemma missing_key_found (prox_ops : list (string * operator))
    (term_keys : list string) (k : string) :
  In k term_keys -> contains prox_ops k = false ->
  exists k', missing_key prox_ops term_keys = Some k' /\
             In k' term_keys /\ contains prox_ops k' = false.
Proof.
  intros Hin Hk. unfold missing_key.
  destruct (find (fun k => negb (contains prox_ops k)) term_keys) as [k'|] eqn:Hf.
  - exists k'. apply find_some in Hf. destruct Hf as [Hin' Hc].
    split; [reflexivity|]. split; [exact Hin'|].
    destruct (contains prox_ops k'); [discriminate|reflexivity].
  - exfalso. apply (find_none _ _ Hf) in Hin. rewrite Hk in Hin. discriminate.
Qed.

(** C5.  The registry always has an operator for the dense blocks, it lacks
    the one for the annotated blocks exactly when [lambda1] is not given and
    the one for the sparse blocks exactly when [lambda2] is not given.  When a
    block of the decoder has no operator in the registry, [train_autoencoder]
    raises the [ValueError] whose message ends with the name of such a block,
    and it does so in the state in which it started: no batch was drawn and
    nothing was printed. *)
Theorem C5_registry_checked_before_first_batch {C : Collaborators}
    (adata : AnnData) (autoencoder : Autoencoder) (lr : R)
    (batch_size num_epochs : nat) (lambda0 : R)
    (lambda1 lambda2 lambda3 : option R) (test_data : option (tensor R))
    (I_ : tensor Z) :
  varm_I adata = Some I_ ->
  let prox_ops := get_prox_operators (Some I_) lambda1 lambda2 lambda3 in
  let term_keys := keys (decoder autoencoder) in
  let run := train_autoencoder adata autoencoder lr batch_size num_epochs
                               lambda0 lambda1 lambda2 lambda3 test_data in
  contains prox_ops "dense" = true /\
  (contains prox_ops "annotated" = false <-> lambda1 = None) /\
  (contains prox_ops "sparse" = false <-> lambda2 = None) /\
  (forall k, In k term_keys -> contains prox_ops k = false ->
     exists k',
       In k' term_keys /\ contains prox_ops k' = false /\
       run = (Raise (ValueError
                       ("Provide regularization coefficient for " ++ k')%string),
              initial_state adata autoencoder lr) /\
       st_drawn (snd run) = 0%nat /\ st_output (snd run) = []).
Proof.
  intros HI prox_ops term_keys run.
  split; [apply contains_dense|].
  split; [apply contains_annotated|].
  split; [apply contains_sparse|].
  intros k Hin Hk.
  destruct (missing_key_found prox_ops term_keys k Hin Hk)
    as (k' & Hmiss & Hin' & Hk').
  exists k'. split; [exact Hin'|]. split; [exact Hk'|].
  assert (Hrun : run = (Raise (ValueError
                         ("Provide regularization coefficient for " ++ k')%string),
                        initial_state adata autoencoder lr)).
  { unfold run, train_autoencoder, bindM at 1, lift, getitem_varm_I.
    rewrite HI. unfold bindM. rewrite validate_spec.
    fold prox_ops term_keys. rewrite Hmiss. reflexivity. }
  split; [exact Hrun|]. rewrite Hrun. split; reflexivity.
Qed.

Lemma C5_witness :
  varm_I adata_example = Some I_share /\
  train_autoencoder adata_example autoencoder_sparse 1 1 1 0 None None None None =
  (Raise (ValueError "Provide regularization coefficient for sparse"),
   initial_state adata_example autoencoder_sparse 1).
Proof.
  split; [reflexivity|].
  pose proof (C5_registry_checked_before_first_batch
                adata_example autoencoder_sparse 1 1 1 0 None None None None
                I_share eq_refl) as Hc.
  cbv zeta in Hc. destruct Hc as (_ & _ & _ & Hk).
  destruct (Hk "sparse"%string) as (k' & Hin & _ & Hrun & _).
  - left. reflexivity.
  - reflexivity.
  - destruct Hin as [<-|[]]. exact Hrun.
Defined.

(** ** train_autoencoder: the diagnostics at the end of an epoch *)

Lemma is_zero_true (r : R) : is_zero r = true <-> r = 0.
Proof.
  unfold is_zero. destruct (Req_dec_T r 0); split; intros; congruence.
Qed.

Lemma is_zero_false (r : R) : is_zero r = false <-> r <> 0.
Proof.
  unfold is_zero. destruct (Req_dec_T r 0); split; intros; congruence.
Qed.

Lemma not_abs_positive_is_zero (w : R) : negb (Rgtb (Rabs w) 0) = is_zero w.
Proof.
  unfold Rgtb, is_zero.
  destruct (Rlt_dec 0 (Rabs w)) as [Hp|Hp], (Req_dec_T w 0) as [Hz|Hz];
    try reflexivity; exfalso.
  - subst w. rewrite Rabs_R0 in Hp. lra.
  - apply Hp, Rabs_pos_lt, Hz.
Qed.

Lemma sum_float_of_bool (p : R -> bool) (l : list R) :
  fold_right Rplus 0 (map (fun w => float_of_bool (p w)) l) =
  INR (length (filter p l)).
Proof.
  induction l as [|w l IH]; [reflexivity|].
  cbn [map fold_right filter]. rewrite IH. unfold float_of_bool.
  destruct (p w); cbn [length]; [rewrite S_INR|]; lra.
Qed.

(** [(~(W.abs() > 0)).float().sum()] is the number of zero entries. *)
Lemma count_not_abs_positive_entries (W : tensor R) :
  count_not_abs_positive W = INR (zero_entries W).
Proof.
  unfold count_not_abs_positive, zero_entries, tsum, tmap; simpl.
  rewrite <- concat_map, <- sum_float_of_bool.
  f_equal. apply map_ext. intros w.
  rewrite not_abs_positive_is_zero. reflexivity.
Qed.

Lemma wrap_small (bits z : Z) :
  (0 < bits)%Z -> (- 2 ^ (bits - 1) <= z < 2 ^ (bits - 1))%Z -> wrap bits z = z.
Proof.
  intros Hb Hz. unfold wrap.
  assert (Hp : (2 ^ bits = 2 * 2 ^ (bits - 1))%Z).
  { replace bits with (Z.succ (bits - 1)) at 1 by lia.
    rewrite Z.pow_succ_r by lia. reflexivity. }
  rewrite Z.mod_small by lia. lia.
Qed.

Lemma sum_one_minus (l : list Z) :
  Forall (fun z => z = 0%Z \/ z = 1%Z) l ->
  fold_right Z.add 0%Z (map (fun z => wrap 32 (1 - z)) l) =
  Z.of_nat (length (filter (Z.eqb 0) l)).
Proof.
  induction 1 as [|z l Hz _ IH]; [reflexivity|].
  cbn [map fold_right filter]. rewrite IH.
  destruct Hz as [-> | ->]; cbn [Z.eqb length]; [|reflexivity].
  rewrite Nat2Z.inj_succ. change (wrap 32 (1 - 0)) with 1%Z. lia.
Qed.

(** [(1 - I).sum()] is the number of zero entries of a binary [I] (of less
    than 2^63 entries). *)
Lemma n_inact_genes_entries (I_ : tensor Z) :
  binary I_ -> (Z.of_nat (length (concat (rows I_))) < 2 ^ 63)%Z ->
  n_inact_genes_of I_ = Z.of_nat (zero_annotations I_).
Proof.
  intros Hb Hsize. unfold n_inact_genes_of, zero_annotations.
  rewrite sum_one_minus by exact Hb.
  apply wrap_small; [lia|].
  pose proof (filter_length_le (Z.eqb 0) (concat (rows I_))) as Hle.
  change (64 - 1)%Z with 63%Z. lia.
Qed.

Section Diagnostics.

Context `{Collaborators}.

Lemma bindM_ok_inv {A B : Type} (m : M A) (k : A -> M B) (s s' : state) (b : B) :
  bindM m k s = (Ok b, s') ->
  exists a s1, m s = (Ok a, s1) /\ k a s1 = (Ok b, s').
Proof.
  unfold bindM. destruct (m s) as [[a|e] s1]; [|discriminate].
  intros Hk. exists a, s1. split; [reflexivity|exact Hk].
Qed.

Lemma lift_ok_inv {A : Type} (r : result A) (s s' : state) (a : A) :
  lift r s = (Ok a, s') -> r = Ok a /\ s' = s.
Proof.
  unfold lift. intros Heq. injection Heq as -> ->. split; reflexivity.
Qed.

Lemma autoencoder_call_frame (training : bool) (x : tensor R)
    (r : result (tensor R * tensor R)) (s s' : state) :
  autoencoder_call training x s = (r, s') ->
  st_decoder s' = st_decoder s /\ st_output s' = st_output s /\
  st_drawn s' = st_drawn s.
Proof.
  unfold autoencoder_call.
  destruct (encoder_call training (st_encoder s) x) as [encoded e].
  destruct (forward (st_decoder s) encoded); intros Heq;
    injection Heq as _ <-; repeat split.
Qed.

(** An epoch's diagnostics that end normally found an annotated block, left
    the decoder as it was, and printed last the quotient of the number of the
    zero entries of that block by [n_inact_genes]. *)
Lemma epoch_end_ok_inv (t_X : tensor R) (comment : string) (lambda0 : R)
    (n_inact_genes : Z) (epoch : nat) (s s' : state) :
  epoch_end t_X comment lambda0 n_inact_genes epoch s = (Ok tt, s') ->
  exists W pre,
    lookup "annotated" (st_decoder s) = Some W /\
    st_decoder s' = st_decoder s /\
    st_drawn s' = st_drawn s /\
    st_output s' =
      pre ++ [DeactivatedShare
                (np_div (INR (zero_entries W)) (IZR n_inact_genes))].
Proof.
  unfold epoch_end. intros Hrun.
  apply bindM_ok_inv in Hrun. destruct Hrun as (ed & s1 & Hcall & Hrun).
  apply autoencoder_call_frame in Hcall. destruct Hcall as (Hd1 & Ho1 & Hn1).
  apply bindM_ok_inv in Hrun. destruct Hrun as (a & s2 & Ha & Hrun).
  apply lift_ok_inv in Ha. destruct Ha as [_ ->].
  apply bindM_ok_inv in Hrun. destruct Hrun as (b & s3 & Hb & Hrun).
  apply lift_ok_inv in Hb. destruct Hb as [_ ->].
  unfold bindM, print, call_n_inactive_terms, n_inactive_terms, getitem in Hrun.
  cbn [st_decoder st_output st_drawn st_encoder st_optimizer st_sampling
       set_decoder TERMS_KEY TERMS_KEYS nth] in Hrun.
  destruct (lookup "annotated" (st_decoder s1)) as [W|] eqn:HW; [|discriminate].
  injection Hrun as <-. cbn [st_decoder st_output st_drawn].
  exists W. eexists. rewrite <- Hd1, HW, Hn1, Ho1.
  repeat split. rewrite count_not_abs_positive_entries. reflexivity.
Qed.

End Diagnostics.

Section Epochs.

Context `{Collaborators}.

Lemma for_each_app {A : Type} (l1 l2 : list A) (body : A -> M unit) (s : state) :
  for_each (l1 ++ l2) body s =
  bindM (for_each l1 body) (fun _ => for_each l2 body) s.
Proof.
  revert s; induction l1 as [|a l1 IH]; intros s; simpl.
  - reflexivity.
  - unfold bindM in *. destruct (body a s) as [[[]|e] s1]; [|reflexivity].
    rewrite IH. reflexivity.
Qed.

(** A loop that ends normally ran its last pass to the end. *)
Lemma for_each_last_inv {A : Type} (l : list A) (a : A) (body : A -> M unit)
    (s s' : state) :
  for_each (l ++ [a]) body s = (Ok tt, s') ->
  exists s1, for_each l body s = (Ok tt, s1) /\ body a s1 = (Ok tt, s').
Proof.
  rewrite for_each_app. intros Hrun.
  apply bindM_ok_inv in Hrun. destruct Hrun as ([] & s1 & Hl & Hrun).
  exists s1. split; [exact Hl|].
  simpl in Hrun. apply bindM_ok_inv in Hrun.
  destruct Hrun as ([] & s2 & Ha & Hret).
  unfold ret in Hret. injection Hret as <-. exact Ha.
Qed.

(** An epoch that ends normally ended with its diagnostics. *)
Lemma epoch_body_ok_inv (adata : AnnData) (prox_ops : list (string * operator))
    (term_keys : list string) (zeros_ t_X : tensor R) (comment : string)
    (lambda0 : R) (n_inact_genes : Z) (batch_size epoch : nat) (s s' : state) :
  epoch_body adata prox_ops term_keys zeros_ t_X comment lambda0 n_inact_genes
             batch_size epoch s = (Ok tt, s') ->
  exists s1, epoch_end t_X comment lambda0 n_inact_genes epoch s1 = (Ok tt, s').
Proof.
  unfold epoch_body. intros Hrun.
  apply bindM_ok_inv in Hrun. destruct Hrun as (n & s1 & _ & Hrun).
  apply bindM_ok_inv in Hrun. destruct Hrun as (u & s2 & _ & Hrun).
  exists s2. exact Hrun.
Qed.

(** A training of at least one epoch that ends normally ended with the
    diagnostics of an epoch, computed with [(1 - I).sum()]. *)
Lemma train_autoencoder_ok_inv (adata : AnnData) (autoencoder : Autoencoder)
    (lr : R) (batch_size num_epochs : nat) (lambda0 : R)
    (lambda1 lambda2 lambda3 : option R) (test_data : option (tensor R))
    (I_ : tensor Z) (s' : state) :
  varm_I adata = Some I_ -> (1 <= num_epochs)%nat ->
  train_autoencoder adata autoencoder lr batch_size num_epochs lambda0
                    lambda1 lambda2 lambda3 test_data = (Ok tt, s') ->
  exists t_X comment epoch s1,
    epoch_end t_X comment lambda0 (n_inact_genes_of I_) epoch s1 = (Ok tt, s').
Proof.
  intros HI Hn. unfold train_autoencoder. intros Hrun.
  apply bindM_ok_inv in Hrun. destruct Hrun as (I' & s0 & HI' & Hrun).
  apply lift_ok_inv in HI'. destruct HI' as [HI' ->].
  unfold getitem_varm_I in HI'. rewrite HI in HI'. injection HI' as <-.
  apply bindM_ok_inv in Hrun. destruct Hrun as (u & s1 & _ & Hrun).
  destruct num_epochs as [|n]; [lia|].
  rewrite seq_S in Hrun. simpl in Hrun.
  destruct test_data as [t|]; apply for_each_last_inv in Hrun;
    destruct Hrun as (s2 & _ & Hbody); apply epoch_body_ok_inv in Hbody;
    destruct Hbody as (s3 & Hend); eauto.
Qed.

End Epochs.

Lemma share_of_counts (W : tensor R) (I_ : tensor Z) :
  binary I_ -> (Z.of_nat (length (concat (rows I_))) < 2 ^ 63)%Z ->
  np_div (INR (zero_entries W)) (IZR (n_inact_genes_of I_)) =
  share_by_entries W I_.
Proof.
  intros Hb Hsize. unfold share_by_entries.
  rewrite n_inact_genes_entries, <- INR_IZR_INZ by assumption. reflexivity.
Qed.

(** C8, as the code has it.  For a binary annotation matrix [I] (of less than
    2^63 entries), the share printed last by an epoch that ends normally, and
    so by a training of at least one epoch that ends normally, is the number
    of the entries of the annotated block that are exactly zero divided by
    the number of the entries of [I] that are zero: gene-term pairs are
    counted, not genes. *)
Theorem C8_share_counts_zero_entries {C : Collaborators}
    (adata : AnnData) (autoencoder : Autoencoder) (lr : R)
    (batch_size num_epochs : nat) (lambda0 : R)
    (lambda1 lambda2 lambda3 : option R) (test_data : option (tensor R))
    (I_ : tensor Z) :
  varm_I adata = Some I_ -> binary I_ ->
  (Z.of_nat (length (concat (rows I_))) < 2 ^ 63)%Z ->
  (forall prox_ops term_keys zeros_ t_X comment epoch s s',
      epoch_body adata prox_ops term_keys zeros_ t_X comment lambda0
                 (n_inact_genes_of I_) batch_size epoch s = (Ok tt, s') ->
      exists W pre,
        lookup "annotated" (st_decoder s') = Some W /\
        st_output s' = pre ++ [DeactivatedShare (share_by_entries W I_)]) /\
  (forall s',
      (1 <= num_epochs)%nat ->
      train_autoencoder adata autoencoder lr batch_size num_epochs lambda0
                        lambda1 lambda2 lambda3 test_data = (Ok tt, s') ->
      exists W pre,
        lookup "annotated" (st_decoder s') = Some W /\
        st_output s' = pre ++ [DeactivatedShare (share_by_entries W I_)]).
Proof.
  intros HI Hb Hsize. split.
  - intros prox_ops term_keys zeros_ t_X comment epoch s s' Hrun.
    apply epoch_body_ok_inv in Hrun. destruct Hrun as (s1 & Hend).
    apply epoch_end_ok_inv in Hend.
    destruct Hend as (W & pre & HW & Hd & _ & Hout).
    exists W, pre. rewrite Hd, Hout, share_of_counts by assumption.
    split; [exact HW|reflexivity].
  - intros s' Hn Hrun.
    apply (train_autoencoder_ok_inv _ _ _ _ _ _ _ _ _ _ I_) in Hrun;
      [|exact HI|exact Hn].
    destruct Hrun as (t_X & comment & epoch & s1 & Hend).
    apply epoch_end_ok_inv in Hend.
    destruct Hend as (W & pre & HW & Hd & _ & Hout).
    exists W, pre. rewrite Hd, Hout, share_of_counts by assumption.
    split; [exact HW|reflexivity].
Qed.

Lemma C8_witness :
  exists s' W pre,
    train_autoencoder adata_example autoencoder_annotated 1 2 1 0
                      (Some 1) None None None = (Ok tt, s') /\
    lookup "annotated" (st_decoder s') = Some W /\
    st_output s' = pre ++ [DeactivatedShare (share_by_entries W I_share)].
Proof.
  assert (Hrun : { s' | train_autoencoder adata_example autoencoder_annotated
                          1 2 1 0 (Some 1) None None None = (Ok tt, s') }).
  { eexists. unfold train_autoencoder.
    cbv [bindM lift getitem_varm_I adata_example varm_I initial_state].
    cbn -[np_div np_add n_inact_genes_of int_of_float count_not_abs_positive
          norm_dim0 Rplus Rmult Rminus IZR INR].
    reflexivity. }
  destruct Hrun as [s' Hrun].
  assert (Hb : binary I_share).
  { unfold binary. simpl.
    repeat (constructor; [(left; reflexivity) || (right; reflexivity)|]).
    constructor. }
  assert (Hsize : (Z.of_nat (length (concat (rows I_share))) < 2 ^ 63)%Z)
    by reflexivity.
  destruct (C8_share_counts_zero_entries
              adata_example autoencoder_annotated 1 2 1 0 (Some 1) None None None
              I_share eq_refl Hb Hsize) as [_ Htrain].
  destruct (Htrain s' (le_n 1) Hrun) as (W & pre & HW & Hout).
  exists s', W, pre. split; [exact Hrun|]. split; [exact HW|exact Hout].
Defined.

(** The reading by genes is not what is printed: with the annotated block
    [[0; 1]; [0; 5]] and the annotations [[0; 0]; [1; 0]], no gene has a zero
    row and one gene has no annotation, which gives 0, while the training
    prints 2/3. *)
Lemma C8_counterexample :
  exists s' l1 l2 share,
    train_autoencoder adata_example autoencoder_annotated 1 2 1 0
                      (Some 1) None None None = (Ok tt, s') /\
    varm_I adata_example = Some I_share /\
    lookup "annotated" (st_decoder s') = Some W_share /\
    st_output s' = [l1; l2; DeactivatedShare share] /\
    share <> share_by_genes W_share I_share.
Proof.
  do 4 eexists. split.
  { unfold train_autoencoder.
    cbv [bindM lift getitem_varm_I adata_example varm_I initial_state].
    cbn -[np_div np_add n_inact_genes_of int_of_float count_not_abs_positive
          norm_dim0 Rplus Rmult Rminus IZR INR].
    reflexivity. }
  split; [reflexivity|]. split; [reflexivity|]. split; [reflexivity|].
  assert (H0 : is_zero 0 = true) by (apply is_zero_true; reflexivity).
  assert (H1 : is_zero 1 = false) by (apply is_zero_false; lra).
  assert (H5 : is_zero 5 = false) by (apply is_zero_false; lra).
  rewrite count_not_abs_positive_entries.
  unfold share_by_genes, zero_entries, zero_rows, W_share.
  cbn [rows concat app filter forallb]. rewrite H0, H1, H5.
  cbn [andb length].
  change (n_inact_genes_of I_share) with 3%Z.
  change (unannotated_genes I_share) with 1%nat.
  unfold np_div.
  destruct (Req_dec_T 3 0) as [Habs|_]; [lra|].
  destruct (Req_dec_T (INR 1) 0) as [Habs|_]; [simpl in Habs; lra|].
  simpl. intros Heq. injection Heq as Heq. lra.
Qed.

(** ** train_autoencoder: the blocks of the decoder *)

Lemma keys_setitem_present {V : Type} (d : list (string * V)) (k : string)
    (v w : V) :
  lookup k d = Some w -> keys (setitem d k v) = keys d.
Proof.
  induction d as [|[k' v'] d IH]; simpl; [discriminate|].
  destruct (String.eqb k k') eqn:Hk; simpl.
  - intros _. apply String.eqb_eq in Hk. congruence.
  - intros Hl. rewrite IH by exact Hl. reflexivity.
Qed.

Lemma lookup_none_keys {V V' : Type} (d : list (string * V))
    (d' : list (string * V')) (k : string) :
  keys d' = keys d -> lookup k d = None -> lookup k d' = None.
Proof.
  revert d'; induction d as [|[k1 v1] d IH]; intros [|[k2 v2] d'] Hk;
    simpl in *; try discriminate; [reflexivity|].
  injection Hk as -> Hk. destruct (String.eqb k k1); [discriminate|].
  apply IH. exact Hk.
Qed.

Section Blocks.

Context `{Collaborators}.

Lemma keeps_keys_ret {A : Type} (a : A) : keeps_keys (ret a).
Proof.
  intros s r s' Heq. injection Heq as _ <-. reflexivity.
Qed.

Lemma keeps_keys_lift {A : Type} (r : result A) : keeps_keys (lift r).
Proof.
  intros s r' s' Heq. injection Heq as _ <-. reflexivity.
Qed.

Lemma keeps_keys_print (l : line) : keeps_keys (print l).
Proof.
  intros s r s' Heq. injection Heq as _ <-. reflexivity.
Qed.

Lemma keeps_keys_bind {A B : Type} (m : M A) (k : A -> M B) :
  keeps_keys m -> (forall a, keeps_keys (k a)) -> keeps_keys (bindM m k).
Proof.
  intros Hm Hk s r s'. unfold bindM.
  destruct (m s) as [[a|e] s1] eqn:Hms.
  - intros Hka. rewrite (Hk a _ _ _ Hka). exact (Hm _ _ _ Hms).
  - intros Heq. injection Heq as _ <-. exact (Hm _ _ _ Hms).
Qed.

Lemma keeps_keys_for_each {A : Type} (l : list A) (body : A -> M unit) :
  (forall a, keeps_keys (body a)) -> keeps_keys (for_each l body).
Proof.
  intros Hbody. induction l as [|a l IH]; simpl.
  - apply keeps_keys_ret.
  - apply keeps_keys_bind; [apply Hbody|intros _; exact IH].
Qed.

Lemma keeps_keys_draw_batch (batch_size : nat) : keeps_keys (draw_batch batch_size).
Proof.
  intros s r s'. unfold draw_batch.
  destruct (chunk_X (st_sampling s) batch_size) as [batch smp].
  intros Heq. injection Heq as _ <-. reflexivity.
Qed.

Lemma keeps_keys_autoencoder_call (training : bool) (x : tensor R) :
  keeps_keys (autoencoder_call training x).
Proof.
  intros s r s' Heq. apply autoencoder_call_frame in Heq.
  destruct Heq as [-> _]. reflexivity.
Qed.

Lemma keeps_keys_optimizer_step (batch : tensor R) (lambda0 : R)
    (batch_size : nat) : keeps_keys (optimizer_step batch lambda0 batch_size).
Proof.
  intros s r s'. unfold optimizer_step.
  destruct (backward_step _ _ _ _ _ _) as [[o e] upd].
  intros Heq. injection Heq as _ <-. simpl.
  unfold keys. rewrite map_map. reflexivity.
Qed.

Lemma keeps_keys_apply_prox (prox_ops : list (string * operator)) (k : string) :
  keeps_keys (apply_prox prox_ops k).
Proof.
  intros s r s'. unfold apply_prox, getitem.
  destruct (lookup k prox_ops) as [op|]; simpl;
    [|intros Heq; injection Heq as _ <-; reflexivity].
  destruct (lookup k (st_decoder s)) as [W|] eqn:HW; simpl;
    [|intros Heq; injection Heq as _ <-; reflexivity].
  destruct (op W) as [c|e]; intros Heq; injection Heq as _ <-;
    [|reflexivity].
  simpl. apply (keys_setitem_present _ _ _ W). exact HW.
Qed.

Lemma keeps_keys_call_n_inactive_terms : keeps_keys call_n_inactive_terms.
Proof.
  intros s r s' Heq. unfold call_n_inactive_terms, n_inactive_terms in Heq.
  injection Heq as _ <-. reflexivity.
Qed.

End Blocks.

Section Training.

Context `{Collaborators}.

Lemma keeps_keys_train_step (prox_ops : list (string * operator))
    (term_keys : list string) (zeros_ : tensor R) (lambda0 : R)
    (batch_size epoch step : nat) :
  keeps_keys (train_step prox_ops term_keys zeros_ lambda0 batch_size epoch step).
Proof.
  unfold train_step.
  apply keeps_keys_bind; [apply keeps_keys_draw_batch|intros batch].
  apply keeps_keys_bind; [apply keeps_keys_autoencoder_call|intros ed].
  apply keeps_keys_bind; [apply keeps_keys_lift|intros a].
  apply keeps_keys_bind; [apply keeps_keys_lift|intros b].
  apply keeps_keys_bind; [apply keeps_keys_lift|intros loss].
  apply keeps_keys_bind; [apply keeps_keys_optimizer_step|intros _].
  apply keeps_keys_bind;
    [apply keeps_keys_for_each; intros k; apply keeps_keys_apply_prox|intros _].
  destruct (Nat.eqb (step mod 100) 0);
    [apply keeps_keys_print|apply keeps_keys_ret].
Qed.

Lemma keeps_keys_getitem_decoder (k : string) :
  keeps_keys (fun s => (getitem (st_decoder s) k, s)).
Proof.
  intros s r s' Heq. injection Heq as _ <-. reflexivity.
Qed.

Lemma keeps_keys_epoch_end (t_X : tensor R) (comment : string) (lambda0 : R)
    (n_inact_genes : Z) (epoch : nat) :
  keeps_keys (epoch_end t_X comment lambda0 n_inact_genes epoch).
Proof.
  unfold epoch_end.
  apply keeps_keys_bind; [apply keeps_keys_autoencoder_call|intros ed].
  apply keeps_keys_bind; [apply keeps_keys_lift|intros a].
  apply keeps_keys_bind; [apply keeps_keys_lift|intros b].
  apply keeps_keys_bind; [apply keeps_keys_print|intros _].
  apply keeps_keys_bind; [apply keeps_keys_call_n_inactive_terms|intros n].
  apply keeps_keys_bind; [apply keeps_keys_print|intros _].
  apply keeps_keys_bind; [apply keeps_keys_getitem_decoder|intros W].
  apply keeps_keys_print.
Qed.

Lemma keeps_keys_steps (adata : AnnData) (prox_ops : list (string * operator))
    (term_keys : list string) (zeros_ : tensor R) (lambda0 : R)
    (batch_size epoch : nat) :
  keeps_keys
    (n <~ lift (n_steps (n_obs adata) batch_size) ;;
     for_each (seq 0 n)
       (train_step prox_ops term_keys zeros_ lambda0 batch_size epoch)).
Proof.
  apply keeps_keys_bind; [apply keeps_keys_lift|intros n].
  apply keeps_keys_for_each. intros step. apply keeps_keys_train_step.
Qed.

Lemma keeps_keys_epoch_body (adata : AnnData)
    (prox_ops : list (string * operator)) (term_keys : list string)
    (zeros_ t_X : tensor R) (comment : string) (lambda0 : R)
    (n_inact_genes : Z) (batch_size epoch : nat) :
  keeps_keys (epoch_body adata prox_ops term_keys zeros_ t_X comment lambda0
                         n_inact_genes batch_size epoch).
Proof.
  unfold epoch_body.
  apply keeps_keys_bind; [apply keeps_keys_lift|intros n].
  apply keeps_keys_bind;
    [apply keeps_keys_for_each; intros step; apply keeps_keys_train_step
    |intros _].
  apply keeps_keys_epoch_end.
Qed.

Lemma keeps_keys_validate (prox_ops : list (string * operator))
    (term_keys : list string) : keeps_keys (validate prox_ops term_keys).
Proof.
  unfold validate. apply keeps_keys_for_each. intros k.
  destruct (contains prox_ops k); [apply keeps_keys_ret|apply keeps_keys_lift].
Qed.

(** However the training ends, the decoder has the blocks it started with,
    under the same names and in the same order. *)
Lemma train_autoencoder_keys (adata : AnnData) (autoencoder : Autoencoder)
    (lr : R) (batch_size num_epochs : nat) (lambda0 : R)
    (lambda1 lambda2 lambda3 : option R) (test_data : option (tensor R)) :
  keys (st_decoder (snd (train_autoencoder adata autoencoder lr batch_size
                           num_epochs lambda0 lambda1 lambda2 lambda3
                           test_data))) =
  keys (decoder autoencoder).
Proof.
  unfold train_autoencoder.
  match goal with
  | |- keys (st_decoder (snd (?m ?s))) = _ =>
      assert (Hk : keeps_keys m); [|destruct (m s) as [r s'] eqn:Hrun;
                                     exact (Hk _ _ _ Hrun)]
  end.
  apply keeps_keys_bind; [apply keeps_keys_lift|intros I_].
  apply keeps_keys_bind; [apply keeps_keys_validate|intros _].
  destruct test_data; apply keeps_keys_for_each; intros epoch;
    apply keeps_keys_epoch_body.
Qed.

End Training.

Section MissingAnnotatedBlock.

Context `{Collaborators}.

(** Without an annotated block, the diagnostics of an epoch whose evaluation
    pass and losses go through print the losses and the number of the
    deactivated terms, and then fail on the lookup of the annotated block. *)
Lemma epoch_end_no_annotated (t_X : tensor R) (comment : string) (lambda0 : R)
    (n_inact_genes : Z) (epoch : nat) (s s1 : state) (ed : tensor R * tensor R)
    (a b : R) :
  lookup "annotated" (st_decoder s) = None ->
  autoencoder_call false t_X s = (Ok ed, s1) ->
  l2_loss (snd ed) t_X = Ok a ->
  l2_loss (fst ed) (zeros (nrows (fst ed)) (ncols (fst ed))) = Ok b ->
  exists s',
    epoch_end t_X comment lambda0 n_inact_genes epoch s =
      (Raise (KeyError "annotated"), s') /\
    st_output s' =
      st_output s ++
      [EpochLoss epoch comment
         (np_add (np_div a (INR (nrows t_X)))
                 (np_div (lambda0 * b) (INR (nrows t_X))))
         (np_div a (INR (nrows t_X)))
         (np_div (lambda0 * b) (INR (nrows t_X)));
       DeactivatedTerms (fst (n_inactive_terms (st_decoder s)))].
Proof.
  intros Hnone Hcall Ha Hb.
  pose proof (autoencoder_call_frame _ _ _ _ _ Hcall) as (Hd & Ho & _).
  unfold epoch_end, bindM. rewrite Hcall. unfold lift. rewrite Ha, Hb.
  unfold print, call_n_inactive_terms, n_inactive_terms, getitem.
  cbn [st_decoder st_output st_drawn st_encoder st_optimizer st_sampling
       set_decoder TERMS_KEY TERMS_KEYS nth fst].
  rewrite Hd, Hnone, Ho. eexists. split; [reflexivity|].
  cbn [st_output]. rewrite <- app_assoc. reflexivity.
Qed.

Lemma validate_all_registered (prox_ops : list (string * operator))
    (term_keys : list string) (s : state) :
  (forall k, In k term_keys -> contains prox_ops k = true) ->
  validate prox_ops term_keys s = (Ok tt, s).
Proof.
  intros Hall. rewrite validate_spec. unfold missing_key.
  destruct (find (fun k => negb (contains prox_ops k)) term_keys) as [k|] eqn:Hf;
    [|reflexivity].
  apply find_some in Hf. destruct Hf as [Hin Hc].
  rewrite (Hall k Hin) in Hc. discriminate.
Qed.

(** With at least one epoch and no annotated block, the training does not end
    normally. *)
Lemma train_autoencoder_no_annotated (adata : AnnData)
    (autoencoder : Autoencoder) (lr : R) (batch_size num_epochs : nat)
    (lambda0 : R) (lambda1 lambda2 lambda3 : option R)
    (test_data : option (tensor R)) :
  lookup "annotated" (decoder autoencoder) = None -> (1 <= num_epochs)%nat ->
  exists e,
    fst (train_autoencoder adata autoencoder lr batch_size num_epochs lambda0
                           lambda1 lambda2 lambda3 test_data) = Raise e.
Proof.
  intros Hnone Hn.
  pose proof (train_autoencoder_keys adata autoencoder lr batch_size num_epochs
                lambda0 lambda1 lambda2 lambda3 test_data) as Hkeys.
  destruct (train_autoencoder adata autoencoder lr batch_size num_epochs
              lambda0 lambda1 lambda2 lambda3 test_data)
    as [[[]|e] s'] eqn:Hrun; [|exists e; reflexivity].
  exfalso. simpl in Hkeys.
  destruct (varm_I adata) as [I_|] eqn:HI.
  - apply (train_autoencoder_ok_inv _ _ _ _ _ _ _ _ _ _ I_) in Hrun;
      [|exact HI|exact Hn].
    destruct Hrun as (t_X & comment & epoch & s1 & Hend).
    apply epoch_end_ok_inv in Hend.
    destruct Hend as (W & pre & HW & Hd & _).
    rewrite <- Hd in HW.
    rewrite (lookup_none_keys _ _ _ Hkeys Hnone) in HW. discriminate.
  - unfold train_autoencoder, bindM, lift, getitem_varm_I in Hrun.
    rewrite HI in Hrun. discriminate.
Qed.

End MissingAnnotatedBlock.

(** C9.  For a decoder without an annotated block and a training of at least
    one epoch: the check of the registry passes when every block has an
    operator; the diagnostics at the end of an epoch never end normally, and
    when the evaluation pass and the losses go through they fail with the
    error of the lookup of the annotated block; so the training does not end
    normally: it ends normally only if the decoder has an annotated block. *)
Theorem C9_training_needs_annotated_block {C : Collaborators}
    (adata : AnnData) (autoencoder : Autoencoder) (lr : R)
    (batch_size num_epochs : nat) (lambda0 : R)
    (lambda1 lambda2 lambda3 : option R) (test_data : option (tensor R)) :
  lookup "annotated" (decoder autoencoder) = None ->
  (1 <= num_epochs)%nat ->
  (forall I_ s,
      (forall k, In k (keys (decoder autoencoder)) ->
                 contains (get_prox_operators (Some I_) lambda1 lambda2 lambda3) k
                 = true) ->
      validate (get_prox_operators (Some I_) lambda1 lambda2 lambda3)
               (keys (decoder autoencoder)) s = (Ok tt, s)) /\
  (forall t_X comment n_inact_genes epoch s,
      keys (st_decoder s) = keys (decoder autoencoder) ->
      fst (epoch_end t_X comment lambda0 n_inact_genes epoch s) <> Ok tt) /\
  (forall t_X comment n_inact_genes epoch s s1 ed a b,
      keys (st_decoder s) = keys (decoder autoencoder) ->
      autoencoder_call false t_X s = (Ok ed, s1) ->
      l2_loss (snd ed) t_X = Ok a ->
      l2_loss (fst ed) (zeros (nrows (fst ed)) (ncols (fst ed))) = Ok b ->
      exists e s',
        getitem (st_decoder s) (TERMS_KEY 0) = Raise e /\
        epoch_end t_X comment lambda0 n_inact_genes epoch s = (Raise e, s')) /\
  (exists e,
      fst (train_autoencoder adata autoencoder lr batch_size num_epochs lambda0
                             lambda1 lambda2 lambda3 test_data) = Raise e).
Proof.
  intros Hnone Hn. split; [|split; [|split]].
  - intros I_ s Hall. apply validate_all_registered. exact Hall.
  - intros t_X comment n_inact_genes epoch s Hkeys Hok.
    destruct (epoch_end t_X comment lambda0 n_inact_genes epoch s)
      as [[[]|e] s'] eqn:Hend; [|discriminate].
    apply epoch_end_ok_inv in Hend. destruct Hend as (W & pre & HW & _).
    rewrite (lookup_none_keys _ _ _ Hkeys Hnone) in HW. discriminate.
  - intros t_X comment n_inact_genes epoch s s1 ed a b Hkeys Hcall Ha Hb.
    pose proof (lookup_none_keys _ _ _ Hkeys Hnone) as Hs.
    destruct (epoch_end_no_annotated t_X comment lambda0 n_inact_genes epoch
                s s1 ed a b Hs Hcall Ha Hb) as (s' & Hend & _).
    exists (KeyError "annotated"), s'. split; [|exact Hend].
    unfold getitem. change (TERMS_KEY 0) with "annotated"%string.
    rewrite Hs. reflexivity.
  - apply train_autoencoder_no_annotated; assumption.
Qed.

Lemma C9_witness :
  lookup "annotated" (decoder autoencoder_sparse) = None /\
  exists e,
    fst (train_autoencoder adata_example autoencoder_sparse 1 2 1 0
                           None (Some 1) None None) = Raise e.
Proof.
  split; [reflexivity|].
  exact (proj2 (proj2 (proj2 (C9_training_needs_annotated_block
                                adata_example autoencoder_sparse 1 2 1 0
                                None (Some 1) None None eq_refl (le_n 1))))).
Defined.

(** * Further properties *)

(** ** ProxOperL1: thresholds that are not negative *)

(** The three updates on an entry, for a threshold that may be zero. *)
Lemma l1_entry_shrinks (alpha w : R) :
  0 <= alpha ->
  let g := Rgeb w alpha in
  let l := Rleb w (- alpha) in
  let j := negb g && negb l in
  let w2 := w - float_of_bool g * alpha + float_of_bool l * alpha in
  let w' := w2 - float_of_bool j * w2 in
  Rabs w' <= Rabs w /\ 0 <= w' * w /\ (w' = 0 <-> Rabs w <= alpha) /\
  (alpha = 0 -> w' = w).
Proof.
  intros Ha. cbv zeta.
  unfold Rgeb, Rleb, float_of_bool.
  destruct (Rle_dec alpha w) as [Hg|Hg], (Rle_dec w (- alpha)) as [Hl|Hl];
    cbn [negb andb];
    unfold Rabs;
    repeat match goal with
           | |- context [Rcase_abs ?a] => destruct (Rcase_abs a)
           end;
    repeat split; intros; try lra; try nra.
Qed.

(** X1.  ProxOperL1 with a threshold [alpha >= 0] and no mask: no entry grows in
    absolute value, no entry changes its sign, the entries that become zero
    are those with [|w| <= alpha], and with [alpha = 0] every entry is
    returned as it is. *)
Theorem X1_ProxOperL1_shrinks_entries (alpha : R) (W : tensor R)
    (inplace : bool) :
  0 <= alpha ->
  exists c,
    ProxOperL1_call (ProxOperL1_init alpha None inplace) W = Ok c /\
    shape (returned c) = shape W /\
    forall i j w,
      tget W i j = Some w ->
      exists w',
        tget (returned c) i j = Some w' /\
        Rabs w' <= Rabs w /\ 0 <= w' * w /\
        (w' = 0 <-> Rabs w <= alpha) /\
        (alpha = 0 -> w' = w).
Proof.
  intros Ha. unfold ProxOperL1_call, ProxOperL1_init; simpl.
  eexists; split; [reflexivity|]; simpl. split; [reflexivity|].
  intros i j w Hw. rewrite tget_l1_update.
  repeat (rewrite tget_tmap2 || rewrite tget_tmap).
  rewrite Hw; simpl. eexists. split; [reflexivity|].
  apply (l1_entry_shrinks alpha w Ha).
Qed.

Lemma X1_witness :
  exists c,
    ProxOperL1_call (ProxOperL1_init 0 None true) W_example = Ok c /\
    tget (returned c) 0 1 = Some (-3).
Proof.
  destruct (X1_ProxOperL1_shrinks_entries 0 W_example true (Rle_refl 0))
    as (c & Hc & _ & Hentries).
  exists c. split; [exact Hc|].
  destruct (Hentries 0%nat 1%nat (-3) eq_refl) as (w' & Hw' & _ & _ & _ & Hid).
  rewrite Hw', (Hid eq_refl). reflexivity.
Defined.

(** X2.  A mask of [ProxOperL1] that cannot be broadcast to the shape of [W] (a
    dimension that is neither the one of [W] nor 1) makes the call raise
    [RuntimeError], at the first [&=], before [W] is updated. *)
Theorem X2_ProxOperL1_mask_shape_mismatch (alpha : R) (W : tensor R)
    (I : tensor Z) (inplace : bool) :
  (nrows I <> nrows W /\ nrows I <> 1%nat) \/
  (ncols I <> ncols W /\ ncols I <> 1%nat) ->
  ProxOperL1_call (ProxOperL1_init alpha (Some I) inplace) W = Raise RuntimeError.
Proof.
  intros Hshape. unfold ProxOperL1_call, ProxOperL1_init; simpl.
  unfold iand at 1, expand_as; simpl.
  assert (Hcond : (Nat.eqb (nrows I) (nrows W) || Nat.eqb (nrows I) 1)
                  && (Nat.eqb (ncols I) (ncols W) || Nat.eqb (ncols I) 1)
                  = false).
  { destruct Hshape as [[H1 H2]|[H1 H2]];
      apply Nat.eqb_neq in H1; apply Nat.eqb_neq in H2; rewrite H1, H2;
      simpl; [reflexivity|apply andb_false_r]. }
  rewrite Hcond. reflexivity.
Qed.

Lemma X2_witness :
  ProxOperL1_call (ProxOperL1_init 1 (Some I_example) true) W_sparse =
  Raise RuntimeError.
Proof.
  apply X2_ProxOperL1_mask_shape_mismatch.
  left. split; simpl; lia.
Defined.

(** ** ProxOperGroupL2 and the count of the deactivated terms *)





(** ** The proximal operators and the entries that are zero *)

Lemma soft_threshold_zero (alpha : R) : 0 < alpha -> soft_threshold alpha 0 = 0.
Proof.
  intros Ha. apply soft_threshold_below; [exact Ha|].
  rewrite Rabs_R0. exact Ha.
Qed.

Lemma group_entry_zero (n g : R) : group_entry n g 0 = 0.
Proof.
  unfold group_entry. cbv zeta. unfold Rdiv. rewrite Rmult_0_l. ring.
Qed.

Lemma tget_bounds {A : Type} (T : tensor A) (i j : nat) (a : A) :
  wf T -> tget T i j = Some a -> (i < nrows T)%nat /\ (j < ncols T)%nat.
Proof.
  intros [Hr Hc] Hget. unfold tget in Hget.
  destruct (nth_error (rows T) i) as [r|] eqn:Hrow; [|discriminate].
  assert (Hi : (i < length (rows T))%nat).
  { apply nth_error_Some. congruence. }
  assert (Hj : (j < length r)%nat).
  { apply nth_error_Some. congruence. }
  rewrite Forall_forall in Hc.
  rewrite <- (Hc r (nth_error_In _ _ Hrow)). lia.
Qed.

(** The group operator keeps the entries that are zero. *)
Lemma group_keeps_zero_entries (self : ProxOperGroupL2) (W : tensor R)
    (g : list R) :
  wf W ->
  coeff_per_column (gl2_group_coeff self) (ncols W) = Ok g ->
  Forall (fun x => 0 < x) g ->
  exists c,
    ProxOperGroupL2_call self W = Ok c /\ wf (returned c) /\
    shape (returned c) = shape W /\
    forall i j, tget W i j = Some 0 -> tget (returned c) i j = Some 0.
Proof.
  intros Hwf Hg Hpos.
  destruct (ProxOperGroupL2_call_columns self W g Hwf Hg Hpos)
    as (c & s & Hc & _ & _ & Hwfc & Hshape & _ & Hcol).
  exists c. split; [exact Hc|]. split; [exact Hwfc|]. split; [exact Hshape|].
  intros i j Hget.
  destruct (tget_bounds W i j 0 Hwf Hget) as [Hi Hj].
  injection Hshape as Hrows Hcols.
  rewrite tget_column by (auto; lia).
  destruct (Hcol j Hj) as [_ ->].
  rewrite tget_column in Hget by auto. injection Hget as Hget.
  rewrite (nth_map_in _ _ _ 0) by (rewrite length_column by exact Hwf; exact Hi).
  rewrite Hget, group_entry_zero. reflexivity.
Qed.

(** X4.  An entry of a block that is exactly zero is still zero after a call of
    [ProxOperL1], with or without a mask of the shape of the block, and after
    a call of [ProxOperGroupL2] with positive coefficients: the proximal steps
    never bring a weight back. *)
Theorem X4_prox_steps_keep_zero_entries (alpha : R) (W : tensor R)
    (I : tensor Z) (inplace : bool) (self : ProxOperGroupL2) (g : list R) :
  0 < alpha -> wf W -> wf I -> shape I = shape W ->
  coeff_per_column (gl2_group_coeff self) (ncols W) = Ok g ->
  Forall (fun x => 0 < x) g ->
  (exists c,
      ProxOperL1_call (ProxOperL1_init alpha None inplace) W = Ok c /\
      forall i j, tget W i j = Some 0 -> tget (returned c) i j = Some 0) /\
  (exists c,
      ProxOperL1_call (ProxOperL1_init alpha (Some I) inplace) W = Ok c /\
      forall i j, tget W i j = Some 0 -> tget (returned c) i j = Some 0) /\
  (exists c,
      ProxOperGroupL2_call self W = Ok c /\
      forall i j, tget W i j = Some 0 -> tget (returned c) i j = Some 0).
Proof.
  intros Ha Hwf HwfI Hshape Hg Hpos. split; [|split].
  - destruct (ProxOperL1_call_no_mask alpha W inplace Ha)
      as (c & Hc & _ & _ & Hentries).
    exists c. split; [exact Hc|]. intros i j Hget.
    rewrite Hentries, Hget. simpl. rewrite soft_threshold_zero by exact Ha.
    reflexivity.
  - destruct (ProxOperL1_call_mask alpha W I inplace Ha HwfI Hshape)
      as (c & Hc & _ & _ & Hentries).
    exists c. split; [exact Hc|]. intros i j Hget.
    destruct (tget_bounds W i j 0 Hwf Hget) as [Hi Hj].
    injection Hshape as Hrows Hcols.
    destruct (tget I i j) as [z|] eqn:Hz.
    + rewrite (Hentries i j 0 z Hget Hz).
      destruct (to_bool z); [reflexivity|].
      rewrite soft_threshold_zero by exact Ha. reflexivity.
    + exfalso. unfold tget in Hz. destruct HwfI as [HrI HcI].
      destruct (nth_error (rows I) i) as [r|] eqn:Hrow.
      * apply nth_error_None in Hz. rewrite Forall_forall in HcI.
        rewrite (HcI r (nth_error_In _ _ Hrow)) in Hz. lia.
      * apply nth_error_None in Hrow. lia.
  - destruct (group_keeps_zero_entries self W g Hwf Hg Hpos)
      as (c & Hc & _ & _ & Hzero).
    exists c. split; [exact Hc|exact Hzero].
Qed.

Lemma X4_witness :
  exists c,
    ProxOperL1_call (ProxOperL1_init 1 (Some I_example) true) W_example = Ok c /\
    tget (returned c) 1 1 = Some 0.
Proof.
  assert (Hwf : wf W_example) by (split; [reflexivity | repeat constructor]).
  assert (HwfI : wf I_example) by (split; [reflexivity | repeat constructor]).
  assert (Hg : coeff_per_column (gl2_group_coeff prox_group) (ncols W_example)
               = Ok [1; 1]) by reflexivity.
  assert (Hpos : Forall (fun x => 0 < x) [1; 1]) by (repeat constructor; lra).
  destruct (X4_prox_steps_keep_zero_entries 1 W_example I_example true
              prox_group [1; 1] Rlt_0_1 Hwf HwfI eq_refl Hg Hpos)
    as (_ & (c & Hc & Hzero) & _).
  exists c. split; [exact Hc|]. apply Hzero. reflexivity.
Defined.

(** ** get_prox_operators: the operators work on the blocks themselves *)

Lemma p_gr_inplace (lambda3 : option R) (W : tensor R) (c : called) :
  p_gr lambda3 W = Ok c -> same_object c = true /\ arg_after c = returned c.
Proof.
  destruct lambda3 as [l3|]; simpl.
  - unfold ProxOperGroupL2_call.
    destruct (coeff_per_column _ _) as [g|e]; simpl; [|discriminate].
    destruct (scaled_norm_vector _ _) as [s|e]; simpl; [|discriminate].
    destruct (tmap_colsM _ _ _) as [q|e]; simpl; [|discriminate].
    intros [= <-]. split; reflexivity.
  - unfold identity_op. intros [= <-]. split; reflexivity.
Qed.

Lemma compose_inplace_result (outer inner : operator) (W : tensor R) (c : called) :
  (forall c1, inner W = Ok c1 ->
              same_object c1 = true /\ arg_after c1 = returned c1) ->
  (forall W' c2, outer W' = Ok c2 ->
                 same_object c2 = true /\ arg_after c2 = returned c2) ->
  compose outer inner W = Ok c ->
  same_object c = true /\ arg_after c = returned c.
Proof.
  intros Hin Hout. unfold compose.
  destruct (inner W) as [c1|e] eqn:H1; simpl; [|discriminate].
  destruct (outer (returned c1)) as [c2|e] eqn:H2; simpl; [|discriminate].
  destruct (Hin c1 eq_refl) as [Hs1 _].
  destruct (Hout _ c2 H2) as [Hs2 Ha2].
  intros [= <-]. simpl. rewrite Hs1, Hs2. split; [reflexivity|exact Ha2].
Qed.

(** The operators of the registry, by name. *)
Lemma registry_cases (I : option (tensor Z)) (lambda1 lambda2 lambda3 : option R)
    (k : string) (op : operator) :
  lookup k (get_prox_operators I lambda1 lambda2 lambda3) = Some op ->
  (k = "annotated"%string /\
   exists l1, lambda1 = Some l1 /\
              op = compose (p_gr lambda3) (p_l1_annot I l1)) \/
  (k = "sparse"%string /\
   exists l2, lambda2 = Some l2 /\
              op = compose (p_gr lambda3) (p_l1_sparse l2)) \/
  (k = "dense"%string /\ op = (fun W => p_gr lambda3 W)).
Proof.
  unfold get_prox_operators.
  destruct lambda1 as [l1|], lambda2 as [l2|]; simpl;
    change (TERMS_KEY 0) with "annotated"%string;
    change (TERMS_KEY 1) with "sparse"%string;
    change (TERMS_KEY 2) with "dense"%string;
    repeat match goal with
           | |- context [String.eqb k ?s] =>
               let E := fresh "E" in
               destruct (String.eqb k s) eqn:E;
               [apply String.eqb_eq in E; subst k|]
           end;
    intros Heq; try discriminate; injection Heq as <-; eauto 6.
Qed.

Lemma registry_operators_inplace (I : option (tensor Z))
    (lambda1 lambda2 lambda3 : option R) (k : string) (op : operator)
    (W : tensor R) (c : called) :
  lookup k (get_prox_operators I lambda1 lambda2 lambda3) = Some op ->
  op W = Ok c ->
  same_object c = true /\ arg_after c = returned c.
Proof.
  intros Hop Hc.
  destruct (registry_cases _ _ _ _ _ _ Hop)
    as [(_ & l1 & _ & ->)|[(_ & l2 & _ & ->)|(_ & ->)]].
  - apply (compose_inplace_result _ _ W c) in Hc; [exact Hc| |].
    + intros c1. apply ProxOperL1_inplace_same_object.
    + intros W' c2. apply p_gr_inplace.
  - apply (compose_inplace_result _ _ W c) in Hc; [exact Hc| |].
    + intros c1. apply ProxOperL1_inplace_same_object.
    + intros W' c2. apply p_gr_inplace.
  - apply (p_gr_inplace lambda3 W c Hc).
Qed.

(** X5.  Every operator of the registry updates the tensor it is called on and
    returns that same tensor: the training loop, which drops what the
    operator returns, finds the result in the block it passed. *)
Theorem X5_registry_operators_work_in_place (I : option (tensor Z))
    (lambda1 lambda2 lambda3 : option R) (k : string) (op : operator)
    (W : tensor R) (c : called) :
  lookup k (get_prox_operators I lambda1 lambda2 lambda3) = Some op ->
  op W = Ok c ->
  same_object c = true /\ arg_after c = returned c.
Proof.
  apply registry_operators_inplace.
Qed.

Lemma X5_witness :
  exists op c,
    lookup "sparse" (get_prox_operators None None (Some 1) None) = Some op /\
    op W_example = Ok c /\ same_object c = true /\ arg_after c = returned c.
Proof.
  destruct (lookup "sparse" (get_prox_operators None None (Some 1) None))
    as [op|] eqn:Hop; [|discriminate].
  destruct (op W_example) as [c|e] eqn:Hc.
  - exists op, c. split; [reflexivity|]. split; [exact Hc|].
    exact (X5_registry_operators_work_in_place
             None None (Some 1) None "sparse" op W_example c Hop Hc).
  - exfalso. injection Hop as <-. discriminate.
Defined.

Lemma compose_identity (inner : operator) (W : tensor R) :
  (forall c1, inner W = Ok c1 ->
              same_object c1 = true /\ arg_after c1 = returned c1) ->
  compose identity_op inner W = inner W.
Proof.
  intros Hin. unfold compose, identity_op.
  destruct (inner W) as [[a r s]|e]; simpl; [|reflexivity].
  destruct (Hin _ eq_refl) as [Hs Ha]. simpl in Hs, Ha. subst s a.
  reflexivity.
Qed.

(** X6.  Without [lambda3] the registry has no group step: the operator of the
    dense blocks returns the block as it is, and the operators of the
    annotated and of the sparse blocks do what their L1 operator does. *)
Theorem X6_registry_without_lambda3 (I : option (tensor Z))
    (lambda1 lambda2 : option R) (k : string) (op : operator) (W : tensor R) :
  lookup k (get_prox_operators I lambda1 lambda2 None) = Some op ->
  (k = "annotated"%string /\
   exists l1, lambda1 = Some l1 /\ op W = p_l1_annot I l1 W) \/
  (k = "sparse"%string /\
   exists l2, lambda2 = Some l2 /\ op W = p_l1_sparse l2 W) \/
  (k = "dense"%string /\
   op W = Ok {| arg_after := W; returned := W; same_object := true |}).
Proof.
  intros Hop.
  destruct (registry_cases _ _ _ _ _ _ Hop)
    as [(Hk & l1 & Hl & ->)|[(Hk & l2 & Hl & ->)|(Hk & ->)]].
  - left. split; [exact Hk|]. exists l1. split; [exact Hl|].
    apply compose_identity. intros c1. apply ProxOperL1_inplace_same_object.
  - right; left. split; [exact Hk|]. exists l2. split; [exact Hl|].
    apply compose_identity. intros c1. apply ProxOperL1_inplace_same_object.
  - right; right. split; [exact Hk|]. reflexivity.
Qed.

Lemma X6_witness :
  exists op,
    lookup "dense" (get_prox_operators None None None None) = Some op /\
    op W_example =
    Ok {| arg_after := W_example; returned := W_example; same_object := true |}.
Proof.
  destruct (lookup "dense" (get_prox_operators None None None None))
    as [op|] eqn:Hop; [|discriminate].
  exists op. split; [reflexivity|].
  destruct (X6_registry_without_lambda3 None None None "dense" op W_example Hop)
    as [(Hk & _)|[(Hk & _)|(_ & Hid)]]; [discriminate|discriminate|exact Hid].
Defined.

(** ** CompositeLinearDecoder.forward: shapes that do not fit, and sums *)

(** X7.  An input whose number of columns is not the number of the terms of the
    decoder, or blocks that do not have the same number of rows, make
    [forward] raise [RuntimeError]. *)
Theorem X7_forward_shape_mismatch (self : weight_dict) (x : tensor R)
    (n_vars : nat) :
  (self <> [] ->
   Forall (fun T => wf T /\ nrows T = n_vars) (values self) ->
   ncols x <> total_cols (values self) ->
   forward self x = Raise RuntimeError) /\
  (forall v v' rest T,
      values self = v :: v' :: rest -> In T (v' :: rest) ->
      nrows T <> nrows v ->
      forward self x = Raise RuntimeError).
Proof.
  split.
  - intros Hne Hall Hcols.
    assert (Hvals : values self <> []).
    { destruct self; [congruence|discriminate]. }
    destruct (cat_same_rows _ _ Hvals Hall) as (W & Hcat & _ & _ & HcW & _).
    rewrite forward_as_general
      by (revert Hall; apply Forall_impl; tauto).
    unfold forward_general. rewrite Hcat. simpl.
    unfold matmul. cbn [nrows transpose]. rewrite HcW.
    apply Nat.eqb_neq in Hcols. rewrite Hcols. reflexivity.
  - intros v v' rest T Hvals Hin Hrows.
    unfold forward. rewrite Hvals. unfold forward_general, cat.
    assert (Hf : forallb (fun T0 => Nat.eqb (nrows T0) (nrows v))
                         (v :: v' :: rest) = false).
    { destruct (forallb _ (v :: v' :: rest)) eqn:Hfb; [|reflexivity].
      rewrite forallb_forall in Hfb.
      specialize (Hfb T (or_intror Hin)). apply Nat.eqb_eq in Hfb.
      contradiction. }
    rewrite Hf. reflexivity.
Qed.

Lemma X7_witness :
  forward decoder_two_blocks x_example = Raise RuntimeError.
Proof.
  apply (proj1 (X7_forward_shape_mismatch decoder_two_blocks x_example 2)).
  - discriminate.
  - repeat constructor.
  - simpl. lia.
Defined.

Lemma dot_add (u u' v : list R) :
  length u = length u' ->
  dot (zip_with Rplus u u') v = dot u v + dot u' v.
Proof.
  unfold dot. revert u' v.
  induction u as [|a u IH]; intros [|a' u'] v Hlen; simpl in *;
    try discriminate; try lra.
  destruct v as [|b v]; simpl; [lra|].
  rewrite IH by congruence. lra.
Qed.

Lemma zip_with_map_map {A B C D : Type} (h : B -> C -> D) (f : A -> B)
    (f' : A -> C) (l : list A) :
  zip_with h (map f l) (map f' l) = map (fun a => h (f a) (f' a)) l.
Proof.
  induction l as [|a l IH]; simpl; congruence.
Qed.

(** [matmul] of a sum of two inputs of one shape. *)
Lemma matmul_add (x x' B y y' : tensor R) :
  wf x -> wf x' -> shape x = shape x' ->
  matmul x B = Ok y -> matmul x' B = Ok y' ->
  matmul (tmap2 Rplus x x') B = Ok (tmap2 Rplus y y').
Proof.
  intros [Hr Hc] [Hr' Hc'] Hshape. injection Hshape as Hrows Hcols.
  unfold matmul. cbn [nrows ncols rows tmap2]. rewrite <- Hcols.
  destruct (Nat.eqb (ncols x) (nrows B)); [|discriminate].
  intros [= <-] [= <-]. unfold tmap2. cbn [nrows ncols rows].
  do 2 f_equal. rewrite Hcols in Hc. clear Hr Hr' Hrows Hcols.
  revert Hc Hc'. generalize (rows x') as rs'. generalize (rows x) as rs.
  induction rs as [|r rs IH]; intros [|r' rs'] Hrs Hrs'; simpl;
    try reflexivity.
  inversion Hrs as [|? ? Hlen Hrst]; subst.
  inversion Hrs' as [|? ? Hlen' Hrst']; subst.
  rewrite (IH rs' Hrst Hrst'). f_equal.
  rewrite zip_with_map_map. apply map_ext. intros j.
  apply dot_add. congruence.
Qed.

(** X8.  [forward] of the sum of two inputs of one shape is the sum of the two
    outputs. *)
Theorem X8_forward_is_additive (self : weight_dict) (x x' y y' : tensor R) :
  wf x -> wf x' -> shape x = shape x' ->
  forward self x = Ok y -> forward self x' = Ok y' ->
  forward self (tmap2 Rplus x x') = Ok (tmap2 Rplus y y').
Proof.
  intros Hx Hx' Hshape. unfold forward, forward_single, forward_general.
  destruct (values self) as [|v [|v' vs]].
  - destruct (cat []) as [W|e]; simpl; [|discriminate].
    apply matmul_add; assumption.
  - apply matmul_add; assumption.
  - destruct (cat (v :: v' :: vs)) as [W|e]; simpl; [|discriminate].
    apply matmul_add; assumption.
Qed.

Lemma X8_witness :
  exists y,
    forward decoder_two_blocks x_two_blocks = Ok y /\
    forward decoder_two_blocks (tmap2 Rplus x_two_blocks x_two_blocks) =
    Ok (tmap2 Rplus y y).
Proof.
  assert (Hx : wf x_two_blocks) by (repeat constructor).
  destruct (forward decoder_two_blocks x_two_blocks) as [y|e] eqn:Hy;
    [|discriminate].
  exists y. split; [reflexivity|].
  exact (X8_forward_is_additive decoder_two_blocks x_two_blocks x_two_blocks
           y y Hx Hx eq_refl Hy Hy).
Defined.

(** ** CompositeLinearDecoder.__init__ *)

Lemma mapM_div_nonzero (N : R) (r : list R) :
  N <> 0 -> mapM (fun w => div w N) r = Ok (map (fun w => w / N) r).
Proof.
  intros HN. apply mapM_ok_map. apply Forall_forall. intros w _.
  unfold div. destruct (Req_dec_T N 0); [contradiction|reflexivity].
Qed.

(** [p.data /= N]: no entry is divided by zero when [N] is not zero, or when
    the block has no column. *)
Lemma idiv_scalar_ok (T : tensor R) (N : R) :
  wf T -> N <> 0 \/ ncols T = 0%nat ->
  idiv_scalar T N = Ok (tmap (fun w => w / N) T).
Proof.
  intros [Hr Hc] HN. unfold idiv_scalar, tmap.
  rewrite (mapM_ok_map _ (map (fun w => w / N))); [reflexivity|].
  eapply Forall_impl; [|exact Hc]. intros r Hlen. simpl in Hlen.
  destruct HN as [HN|H0].
  - apply mapM_div_nonzero, HN.
  - rewrite H0 in Hlen. destruct r; [reflexivity|discriminate].
Qed.

(** A decoder with blocks over the same genes takes every well-formed input
    that has one column per term. *)
Lemma forward_ok (self : weight_dict) (x : tensor R) (n_vars : nat) :
  self <> [] ->
  Forall (fun T => wf T /\ nrows T = n_vars) (values self) ->
  ncols x = total_cols (values self) ->
  exists y, forward self x = Ok y /\ shape y = (nrows x, n_vars).
Proof.
  intros Hne Hall Hcols.
  assert (Hvals : values self <> []).
  { destruct self; [congruence|discriminate]. }
  destruct (cat_same_rows _ n_vars Hvals Hall) as (W & Hcat & _ & HnW & HcW & _).
  rewrite forward_as_general by (revert Hall; apply Forall_impl; tauto).
  unfold forward_general. rewrite Hcat. simpl.
  unfold matmul. cbn [nrows ncols transpose].
  rewrite Hcols, <- HcW, Nat.eqb_refl. eexists. split; [reflexivity|].
  unfold shape. simpl. rewrite HnW. reflexivity.
Qed.

Lemma sqrt_INR_nonzero (n : nat) : (0 < n)%nat -> sqrt (INR n) <> 0.
Proof.
  intros Hn. apply Rgt_not_eq, sqrt_lt_R0, lt_0_INR. exact Hn.
Qed.

(** With draws of the shapes asked for and a size given, the decoder is
    built, and its blocks fit each other and the inputs. *)
Lemma CompositeLinearDecoder_init_ok
    (randn : string -> nat -> nat -> tensor R) (n_vars : nat)
    (n_ann n_sparse n_dense : option nat) :
  (forall k r c, wf (randn k r c) /\ shape (randn k r c) = (r, c)) ->
  (n_ann, n_sparse, n_dense) <> (None, None, None) ->
  exists self,
    CompositeLinearDecoder_init randn n_vars n_ann n_sparse n_dense = Ok self /\
    keys self = present_keys n_ann n_sparse n_dense /\
    Forall (fun T => wf T /\ nrows T = n_vars) (values self) /\
    total_cols (values self) = sum_sizes [n_ann; n_sparse; n_dense] /\
    forall x, wf x -> ncols x = sum_sizes [n_ann; n_sparse; n_dense] ->
      exists y, forward self x = Ok y /\ shape y = (nrows x, n_vars).
Proof.
  intros Hrandn Hsome.
  assert (Hwf : forall k r c, wf (randn k r c)) by (intros; apply Hrandn).
  assert (Hnr : forall k r c, nrows (randn k r c) = r).
  { intros k r c. destruct (Hrandn k r c) as [_ Hs]. injection Hs; auto. }
  assert (Hnc : forall k r c, ncols (randn k r c) = c).
  { intros k r c. destruct (Hrandn k r c) as [_ Hs]. injection Hs; auto. }
  set (N := sqrt (INR (sum_sizes [n_ann; n_sparse; n_dense]))).
  assert (Hblock : forall k sz,
             In (Some sz) [n_ann; n_sparse; n_dense] ->
             idiv_scalar (randn k n_vars sz) N =
             Ok (tmap (fun w => w / N) (randn k n_vars sz))).
  { intros k sz Hin. apply idiv_scalar_ok; [apply Hwf|].
    destruct (Nat.eq_dec (sum_sizes [n_ann; n_sparse; n_dense]) 0) as [H0|Hpos].
    - right. rewrite Hnc.
      destruct n_ann, n_sparse, n_dense; simpl in H0, Hin;
        intuition (try discriminate; try congruence);
        repeat match goal with
               | H : Some _ = Some _ |- _ => injection H as H
               end; lia.
    - left. apply sqrt_INR_nonzero. lia. }
  assert (Hgoal : exists self,
             CompositeLinearDecoder_init randn n_vars n_ann n_sparse n_dense
               = Ok self /\
             keys self = present_keys n_ann n_sparse n_dense /\
             Forall (fun T => wf T /\ nrows T = n_vars) (values self) /\
             total_cols (values self) = sum_sizes [n_ann; n_sparse; n_dense] /\
             self <> []).
  { unfold CompositeLinearDecoder_init. fold N.
    destruct n_ann, n_sparse, n_dense; try (exfalso; apply Hsome; reflexivity);
      cbn [combine TERMS_KEYS fold_left snd fst bind];
      repeat (rewrite Hblock by (simpl; auto); cbn [bind setitem String.eqb]);
      simpl setitem;
      (eexists; split; [reflexivity|]);
      (split; [reflexivity|]);
      (split; [repeat constructor; try apply wf_tmap; try apply Hwf;
               try apply Hnr|]);
      (split; [simpl; rewrite ?Hnc; reflexivity|discriminate]). }
  destruct Hgoal as (self & Hinit & Hkeys & Hall & Htotal & Hne).
  exists self. repeat (split; [assumption|]).
  intros x Hx Hcols. apply forward_ok; [exact Hne|exact Hall|congruence].
Qed.

(** X9.  [CompositeLinearDecoder.__init__] raises [ValueError] when no size is
    given.  Otherwise, with draws of the shapes asked for, it builds a
    dictionary whose keys are those of [TERMS_KEYS] whose size is given, in
    that order, whose blocks all have [n_vars] rows and together as many
    columns as the sizes add up to; [forward] of that decoder takes every
    well-formed input with that number of columns and returns an output of
    shape [(batch, n_vars)]. *)
Theorem X9_decoder_init_builds_fitting_blocks
    (randn : string -> nat -> nat -> tensor R) (n_vars : nat)
    (n_ann n_sparse n_dense : option nat) :
  (forall k r c, wf (randn k r c) /\ shape (randn k r c) = (r, c)) ->
  CompositeLinearDecoder_init randn n_vars None None None =
    Raise (ValueError "At least one type of terms should be chosen") /\
  ((n_ann, n_sparse, n_dense) <> (None, None, None) ->
   exists self,
     CompositeLinearDecoder_init randn n_vars n_ann n_sparse n_dense = Ok self /\
     keys self = present_keys n_ann n_sparse n_dense /\
     Forall (fun T => wf T /\ nrows T = n_vars) (values self) /\
     total_cols (values self) = sum_sizes [n_ann; n_sparse; n_dense] /\
     forall x, wf x -> ncols x = sum_sizes [n_ann; n_sparse; n_dense] ->
       exists y, forward self x = Ok y /\ shape y = (nrows x, n_vars)).
Proof.
  intros Hrandn. split; [reflexivity|].
  apply CompositeLinearDecoder_init_ok. exact Hrandn.
Qed.

Lemma wf_zeros (r c : nat) : wf (zeros r c) /\ shape (zeros r c) = (r, c).
Proof.
  split; [split|reflexivity]; simpl.
  - apply repeat_length.
  - apply Forall_forall. intros l Hl. apply repeat_spec in Hl. subst l.
    apply repeat_length.
Qed.

Lemma X9_witness :
  exists self,
    CompositeLinearDecoder_init (fun _ => zeros) 2 (Some 1%nat) None (Some 2%nat)
      = Ok self /\
    keys self = ["annotated"; "dense"]%string /\
    total_cols (values self) = 3%nat.
Proof.
  assert (Hsome : (Some 1%nat, @None nat, Some 2%nat) <> (None, None, None))
    by discriminate.
  destruct (X9_decoder_init_builds_fitting_blocks
              (fun _ => zeros) 2 (Some 1%nat) None (Some 2%nat)
              (fun _ r c => wf_zeros r c)) as [_ Hbuild].
  destruct (Hbuild Hsome) as (self & Hinit & Hkeys & _ & Htotal & _).
  exists self. split; [exact Hinit|]. split; [exact Hkeys|exact Htotal].
Defined.

(** ** AutoencoderLinearDecoder.__init__ *)

Lemma sum_nonzero_sizes (a s d : option nat) :
  sum_sizes [nonzero_size a; nonzero_size s; nonzero_size d] =
  (size_or_zero a + size_or_zero s + size_or_zero d)%nat.
Proof.
  destruct a as [[|a]|], s as [[|s]|], d as [[|d]|]; simpl; lia.
Qed.

Lemma nonzero_sizes_none (a s d : option nat) :
  (nonzero_size a, nonzero_size s, nonzero_size d) = (None, None, None) <->
  (size_or_zero a + size_or_zero s + size_or_zero d = 0)%nat.
Proof.
  destruct a as [[|a]|], s as [[|s]|], d as [[|d]|]; simpl; split; intros Heq;
    try reflexivity; try discriminate; lia.
Qed.

(** X10.  [AutoencoderLinearDecoder.__init__] raises the [ValueError] of the decoder
    when every size is [None] or 0.  Otherwise (with draws of the shapes asked
    for) it builds an autoencoder whose [n_terms] is the sum of the sizes,
    whose decoder has a block for each size that is given and not 0, and
    whose decoder takes what an encoder with [n_terms] outputs gives: every
    well-formed input with [n_terms] columns is decoded to [n_vars]
    columns. *)
Theorem X10_autoencoder_init_fits_decoder {C : Collaborators}
    (mk_encoder : nat -> nat -> nat -> R -> Encoder)
    (randn : string -> nat -> nat -> tensor R) (n_vars : nat)
    (n_ann n_sparse n_dense : option nat) (dropout_rate : option R)
    (mid_layers_size : option nat) :
  (forall k r c, wf (randn k r c) /\ shape (randn k r c) = (r, c)) ->
  let n := (size_or_zero n_ann + size_or_zero n_sparse
            + size_or_zero n_dense)%nat in
  let built := AutoencoderLinearDecoder_init mk_encoder randn n_vars n_ann
                 n_sparse n_dense dropout_rate mid_layers_size in
  (n = 0%nat ->
   built = Raise (ValueError "At least one type of terms should be chosen")) /\
  ((0 < n)%nat ->
   exists ae,
     built = Ok ae /\ ald_n_terms ae = n /\
     keys (ald_decoder ae) =
       present_keys (nonzero_size n_ann) (nonzero_size n_sparse)
                    (nonzero_size n_dense) /\
     Forall (fun T => wf T /\ nrows T = n_vars) (values (ald_decoder ae)) /\
     total_cols (values (ald_decoder ae)) = ald_n_terms ae /\
     forall x, wf x -> ncols x = ald_n_terms ae ->
       exists y, forward (ald_decoder ae) x = Ok y /\
                 shape y = (nrows x, n_vars)).
Proof.
  intros Hrandn n built. unfold built, AutoencoderLinearDecoder_init. split.
  - intros Hn. apply nonzero_sizes_none in Hn. injection Hn as -> -> ->.
    reflexivity.
  - intros Hn.
    assert (Hsome : (nonzero_size n_ann, nonzero_size n_sparse,
                     nonzero_size n_dense) <> (None, None, None)).
    { intros Heq. apply nonzero_sizes_none in Heq. fold n in Heq. lia. }
    destruct (CompositeLinearDecoder_init_ok randn n_vars _ _ _ Hrandn Hsome)
      as (self & Hinit & Hkeys & Hall & Htotal & Hfw).
    rewrite Hinit. cbn [bind]. eexists. split; [reflexivity|].
    cbn [ald_n_terms ald_decoder].
    rewrite sum_nonzero_sizes in Htotal, Hfw.
    assert (Hsum : fold_left Nat.add
                     (map size_or_zero [n_ann; n_sparse; n_dense]) 0%nat = n).
    { unfold n. simpl. lia. }
    rewrite Hsum. fold n in Htotal, Hfw.
    split; [reflexivity|]. split; [exact Hkeys|]. split; [exact Hall|].
    split; [exact Htotal|exact Hfw].
Qed.

Lemma X10_witness :
  exists ae,
    @AutoencoderLinearDecoder_init still_collaborators
      (fun _ _ _ _ => tt) (fun _ => zeros) 2 (Some 1%nat) (Some 0%nat) None
      None None = Ok ae /\
    ald_n_terms ae = 1%nat /\
    keys (ald_decoder ae) = ["annotated"]%string.
Proof.
  destruct (@X10_autoencoder_init_fits_decoder still_collaborators
              (fun _ _ _ _ => tt) (fun _ => zeros) 2 (Some 1%nat) (Some 0%nat)
              None None None (fun _ r c => wf_zeros r c)) as [_ Hbuild].
  destruct (Hbuild (le_n 1)) as (ae & Hinit & Hn & Hkeys & _).
  exists ae. split; [exact Hinit|]. split; [exact Hn|exact Hkeys].
Defined.

(** ** train_autoencoder: what fails first *)

(** X11.  Without an entry ['I'] in [adata.varm], [train_autoencoder] raises
    [KeyError] for ['I'] whatever the decoder and the coefficients are, before
    the registry is checked: no batch is drawn and nothing is printed. *)
Theorem X11_training_needs_varm_I {C : Collaborators}
    (adata : AnnData) (autoencoder : Autoencoder) (lr : R)
    (batch_size num_epochs : nat) (lambda0 : R)
    (lambda1 lambda2 lambda3 : option R) (test_data : option (tensor R)) :
  varm_I adata = None ->
  let run := train_autoencoder adata autoencoder lr batch_size num_epochs
                               lambda0 lambda1 lambda2 lambda3 test_data in
  run = (Raise (KeyError "I"), initial_state adata autoencoder lr) /\
  st_drawn (snd run) = 0%nat /\ st_output (snd run) = [].
Proof.
  intros HI run.
  assert (Hrun : run = (Raise (KeyError "I"), initial_state adata autoencoder lr)).
  { unfold run, train_autoencoder, bindM, lift, getitem_varm_I.
    rewrite HI. reflexivity. }
  rewrite Hrun. repeat split.
Qed.

Lemma X11_witness :
  train_autoencoder adata_no_annotations autoencoder_sparse 1 1 1 0
                    None None None None =
  (Raise (KeyError "I"), initial_state adata_no_annotations autoencoder_sparse 1).
Proof.
  exact (proj1 (X11_training_needs_varm_I
                  adata_no_annotations autoencoder_sparse 1 1 1 0
                  None None None None eq_refl)).
Defined.

(** X12.  With the registry complete, a batch size of 0 makes the first epoch raise
    [ZeroDivisionError] (the number of steps is [n_obs/batch_size]) before a
    batch is drawn or a line is printed; and with no epoch to run the call
    returns at once, whatever the batch size. *)
Theorem X12_batch_size_zero {C : Collaborators}
    (adata : AnnData) (autoencoder : Autoencoder) (lr : R)
    (num_epochs : nat) (lambda0 : R)
    (lambda1 lambda2 lambda3 : option R) (test_data : option (tensor R))
    (I_ : tensor Z) :
  varm_I adata = Some I_ ->
  (forall k, In k (keys (decoder autoencoder)) ->
             contains (get_prox_operators (Some I_) lambda1 lambda2 lambda3) k
             = true) ->
  ((1 <= num_epochs)%nat ->
   train_autoencoder adata autoencoder lr 0 num_epochs lambda0
                     lambda1 lambda2 lambda3 test_data =
   (Raise ZeroDivisionError, initial_state adata autoencoder lr)) /\
  (forall batch_size,
      train_autoencoder adata autoencoder lr batch_size 0 lambda0
                        lambda1 lambda2 lambda3 test_data =
      (Ok tt, initial_state adata autoencoder lr)).
Proof.
  intros HI Hall. split.
  - intros Hn. unfold train_autoencoder, bindM at 1, lift, getitem_varm_I.
    rewrite HI. unfold bindM at 1.
    rewrite validate_all_registered by exact Hall.
    destruct num_epochs as [|n]; [lia|].
    destruct test_data; reflexivity.
  - intros batch_size. unfold train_autoencoder, bindM at 1, lift, getitem_varm_I.
    rewrite HI. unfold bindM at 1.
    rewrite validate_all_registered by exact Hall.
    destruct test_data; reflexivity.
Qed.

Lemma X12_witness :
  train_autoencoder adata_example autoencoder_sparse 1 0 1 0
                    None (Some 1) None None =
  (Raise ZeroDivisionError, initial_state adata_example autoencoder_sparse 1).
Proof.
  assert (Hall : forall k,
             In k (keys (decoder autoencoder_sparse)) ->
             contains (get_prox_operators (Some I_share) None (Some 1) None) k
             = true).
  { intros k [<-|[]]. reflexivity. }
  exact (proj1 (X12_batch_size_zero adata_example autoencoder_sparse 1 1 0
                  None (Some 1) None None I_share eq_refl Hall) (le_n 1)).
Defined.

(** ** train_autoencoder: the batches that are drawn *)

Section Batches.

Context `{Collaborators}.

Lemma keeps_drawn_ret {A : Type} (a : A) : keeps_drawn (ret a).
Proof.
  intros s r s' Heq. injection Heq as _ <-. reflexivity.
Qed.

Lemma keeps_drawn_lift {A : Type} (r : result A) : keeps_drawn (lift r).
Proof.
  intros s r' s' Heq. injection Heq as _ <-. reflexivity.
Qed.

Lemma keeps_drawn_print (l : line) : keeps_drawn (print l).
Proof.
  intros s r s' Heq. injection Heq as _ <-. reflexivity.
Qed.

Lemma keeps_drawn_bind {A B : Type} (m : M A) (k : A -> M B) :
  keeps_drawn m -> (forall a, keeps_drawn (k a)) -> keeps_drawn (bindM m k).
Proof.
  intros Hm Hk s r s'. unfold bindM.
  destruct (m s) as [[a|e] s1] eqn:Hms.
  - intros Hka. rewrite (Hk a _ _ _ Hka). exact (Hm _ _ _ Hms).
  - intros Heq. injection Heq as _ <-. exact (Hm _ _ _ Hms).
Qed.

Lemma keeps_drawn_for_each {A : Type} (l : list A) (body : A -> M unit) :
  (forall a, keeps_drawn (body a)) -> keeps_drawn (for_each l body).
Proof.
  intros Hbody. induction l as [|a l IH]; simpl.
  - apply keeps_drawn_ret.
  - apply keeps_drawn_bind; [apply Hbody|intros _; exact IH].
Qed.

Lemma keeps_drawn_autoencoder_call (training : bool) (x : tensor R) :
  keeps_drawn (autoencoder_call training x).
Proof.
  intros s r s' Heq. apply autoencoder_call_frame in Heq. tauto.
Qed.

Lemma keeps_drawn_optimizer_step (batch : tensor R) (lambda0 : R)
    (batch_size : nat) : keeps_drawn (optimizer_step batch lambda0 batch_size).
Proof.
  intros s r s'. unfold optimizer_step.
  destruct (backward_step _ _ _ _ _ _) as [[o e] upd].
  intros Heq. injection Heq as _ <-. reflexivity.
Qed.

Lemma keeps_drawn_apply_prox (prox_ops : list (string * operator)) (k : string) :
  keeps_drawn (apply_prox prox_ops k).
Proof.
  intros s r s'. unfold apply_prox.
  destruct (op <- getitem prox_ops k ;; W <- getitem (st_decoder s) k ;; op W);
    intros Heq; injection Heq as _ <-; reflexivity.
Qed.

Lemma keeps_drawn_epoch_end (t_X : tensor R) (comment : string) (lambda0 : R)
    (n_inact_genes : Z) (epoch : nat) :
  keeps_drawn (epoch_end t_X comment lambda0 n_inact_genes epoch).
Proof.
  unfold epoch_end.
  apply keeps_drawn_bind; [apply keeps_drawn_autoencoder_call|intros ed].
  apply keeps_drawn_bind; [apply keeps_drawn_lift|intros a].
  apply keeps_drawn_bind; [apply keeps_drawn_lift|intros b].
  apply keeps_drawn_bind; [apply keeps_drawn_print|intros _].
  apply keeps_drawn_bind.
  { intros s r s' Heq. unfold call_n_inactive_terms, n_inactive_terms in Heq.
    injection Heq as _ <-. reflexivity. }
  intros n.
  apply keeps_drawn_bind; [apply keeps_drawn_print|intros _].
  apply keeps_drawn_bind; [|intros W; apply keeps_drawn_print].
  intros s r s' Heq. injection Heq as _ <-. reflexivity.
Qed.

Lemma keeps_drawn_validate (prox_ops : list (string * operator))
    (term_keys : list string) : keeps_drawn (validate prox_ops term_keys).
Proof.
  unfold validate. apply keeps_drawn_for_each. intros k.
  destruct (contains prox_ops k); [apply keeps_drawn_ret|apply keeps_drawn_lift].
Qed.

End Batches.

Section BatchCount.

Context `{Collaborators}.

(** A step that ends normally drew one batch. *)
Lemma train_step_drawn (prox_ops : list (string * operator))
    (term_keys : list string) (zeros_ : tensor R) (lambda0 : R)
    (batch_size epoch step : nat) (s s' : state) :
  train_step prox_ops term_keys zeros_ lambda0 batch_size epoch step s
    = (Ok tt, s') ->
  st_drawn s' = S (st_drawn s).
Proof.
  unfold train_step. intros Hrun.
  apply bindM_ok_inv in Hrun. destruct Hrun as (batch & s1 & Hdraw & Hrest).
  assert (H1 : st_drawn s1 = S (st_drawn s)).
  { unfold draw_batch in Hdraw.
    destruct (chunk_X (st_sampling s) batch_size) as [b smp].
    injection Hdraw as _ <-. reflexivity. }
  rewrite <- H1. revert Hrest.
  match goal with
  | |- ?m s1 = _ -> _ => assert (Hk : keeps_drawn m); [|apply Hk]
  end.
  apply keeps_drawn_bind; [apply keeps_drawn_autoencoder_call|intros ed].
  apply keeps_drawn_bind; [apply keeps_drawn_lift|intros a].
  apply keeps_drawn_bind; [apply keeps_drawn_lift|intros b].
  apply keeps_drawn_bind; [apply keeps_drawn_lift|intros loss].
  apply keeps_drawn_bind; [apply keeps_drawn_optimizer_step|intros _].
  apply keeps_drawn_bind;
    [apply keeps_drawn_for_each; intros k; apply keeps_drawn_apply_prox|intros _].
  destruct (Nat.eqb (step mod 100) 0);
    [apply keeps_drawn_print|apply keeps_drawn_ret].
Qed.

Lemma for_each_drawn {A : Type} (l : list A) (body : A -> M unit) (k : nat)
    (s s' : state) :
  (forall a s1 s2, body a s1 = (Ok tt, s2) -> st_drawn s2 = (st_drawn s1 + k)%nat) ->
  for_each l body s = (Ok tt, s') ->
  st_drawn s' = (st_drawn s + length l * k)%nat.
Proof.
  intros Hbody. revert s. induction l as [|a l IH]; intros s; simpl.
  - unfold ret. intros [= <-]. lia.
  - intros Hrun. apply bindM_ok_inv in Hrun.
    destruct Hrun as ([] & s1 & Ha & Hl).
    rewrite (IH _ Hl), (Hbody _ _ _ Ha). lia.
Qed.

(** An epoch that ends normally drew [n_obs/batch_size] batches. *)
Lemma epoch_body_drawn (adata : AnnData) (prox_ops : list (string * operator))
    (term_keys : list string) (zeros_ t_X : tensor R) (comment : string)
    (lambda0 : R) (n_inact_genes : Z) (batch_size epoch : nat) (s s' : state) :
  epoch_body adata prox_ops term_keys zeros_ t_X comment lambda0 n_inact_genes
             batch_size epoch s = (Ok tt, s') ->
  st_drawn s' = (st_drawn s + n_obs adata / batch_size)%nat.
Proof.
  unfold epoch_body. intros Hrun.
  apply bindM_ok_inv in Hrun. destruct Hrun as (n & s1 & Hn & Hrun).
  apply lift_ok_inv in Hn. destruct Hn as [Hn ->].
  unfold n_steps in Hn. destruct (Nat.eqb batch_size 0); [discriminate|].
  injection Hn as <-.
  apply bindM_ok_inv in Hrun. destruct Hrun as ([] & s2 & Hsteps & Hend).
  apply (for_each_drawn _ _ 1) in Hsteps.
  - rewrite (keeps_drawn_epoch_end _ _ _ _ _ _ _ _ Hend), Hsteps, length_seq.
    lia.
  - intros step s3 s4 Hstep. rewrite (train_step_drawn _ _ _ _ _ _ _ _ _ Hstep).
    lia.
Qed.

(** A training that ends normally drew [num_epochs * (n_obs/batch_size)]
    batches. *)
Lemma train_autoencoder_drawn (adata : AnnData) (autoencoder : Autoencoder)
    (lr : R) (batch_size num_epochs : nat) (lambda0 : R)
    (lambda1 lambda2 lambda3 : option R) (test_data : option (tensor R))
    (s' : state) :
  train_autoencoder adata autoencoder lr batch_size num_epochs lambda0
                    lambda1 lambda2 lambda3 test_data = (Ok tt, s') ->
  st_drawn s' = (num_epochs * (n_obs adata / batch_size))%nat.
Proof.
  unfold train_autoencoder. intros Hrun.
  apply bindM_ok_inv in Hrun. destruct Hrun as (I_ & s0 & HI & Hrun).
  apply lift_ok_inv in HI. destruct HI as [_ ->].
  apply bindM_ok_inv in Hrun. destruct Hrun as ([] & s1 & Hval & Hrun).
  apply keeps_drawn_validate in Hval. simpl in Hval.
  destruct test_data;
    apply (for_each_drawn _ _ (n_obs adata / batch_size)) in Hrun;
    try (rewrite Hrun, Hval, length_seq; reflexivity);
    intros epoch s2 s3 Hbody; apply (epoch_body_drawn _ _ _ _ _ _ _ _ _ _ _ _ Hbody).
Qed.

End BatchCount.

(** X13.  A call of [train_autoencoder] that ends normally has drawn
    [num_epochs * (n_obs/batch_size)] batches, the quotient rounded down:
    every epoch draws that many batches, whatever [n_obs] leaves over. *)
Theorem X13_batches_drawn {C : Collaborators}
    (adata : AnnData) (autoencoder : Autoencoder) (lr : R)
    (batch_size num_epochs : nat) (lambda0 : R)
    (lambda1 lambda2 lambda3 : option R) (test_data : option (tensor R))
    (s' : state) :
  train_autoencoder adata autoencoder lr batch_size num_epochs lambda0
                    lambda1 lambda2 lambda3 test_data = (Ok tt, s') ->
  st_drawn s' = (num_epochs * (n_obs adata / batch_size))%nat /\
  (forall prox_ops term_keys zeros_ t_X comment n_inact_genes epoch s1 s2,
      epoch_body adata prox_ops term_keys zeros_ t_X comment lambda0
                 n_inact_genes batch_size epoch s1 = (Ok tt, s2) ->
      st_drawn s2 = (st_drawn s1 + n_obs adata / batch_size)%nat).
Proof.
  intros Hrun. split.
  - apply (train_autoencoder_drawn _ _ _ _ _ _ _ _ _ _ _ Hrun).
  - intros prox_ops term_keys zeros_ t_X comment n_inact_genes epoch s1 s2 Hbody.
    apply (epoch_body_drawn _ _ _ _ _ _ _ _ _ _ _ _ Hbody).
Qed.

Lemma X13_witness :
  exists s',
    train_autoencoder adata_example autoencoder_annotated 1 1 1 0
                      (Some 1) None None None = (Ok tt, s') /\
    st_drawn s' = 1%nat.
Proof.
  assert (Hrun : { s' | train_autoencoder adata_example autoencoder_annotated
                          1 1 1 0 (Some 1) None None None = (Ok tt, s') }).
  { eexists.
    cbv -[Rplus Rmult Rminus Ropp Rinv Rdiv IZR INR np_div np_add
          n_inact_genes_of int_of_float count_not_abs_positive
          count_not_positive norm_dim0 Req_dec_T Rle_dec Rlt_dec sqrt].
    destruct (Req_dec_T (INR 1) 0) as [Habs|_]; [simpl in Habs; lra|].
    reflexivity. }
  destruct Hrun as [s' Hrun]. exists s'. split; [exact Hrun|].
  exact (proj1 (X13_batches_drawn adata_example autoencoder_annotated 1 1 1 0
                  (Some 1) None None None s' Hrun)).
Defined.

(** ** train_autoencoder: the names of the blocks *)

(** X14.  However a call of [train_autoencoder] ends, normally or with an error,
    the decoder is left with the blocks it had, under the same names and in
    the same order: the training creates no block and drops none, so a
    lookup that failed before the call fails after it. *)
Theorem X14_training_keeps_block_names {C : Collaborators}
    (adata : AnnData) (autoencoder : Autoencoder) (lr : R)
    (batch_size num_epochs : nat) (lambda0 : R)
    (lambda1 lambda2 lambda3 : option R) (test_data : option (tensor R)) :
  let s' := snd (train_autoencoder adata autoencoder lr batch_size num_epochs
                   lambda0 lambda1 lambda2 lambda3 test_data) in
  keys (st_decoder s') = keys (decoder autoencoder) /\
  length (st_decoder s') = length (decoder autoencoder) /\
  forall k, lookup k (decoder autoencoder) = None ->
            lookup k (st_decoder s') = None.
Proof.
  intros s'.
  assert (Hkeys : keys (st_decoder s') = keys (decoder autoencoder))
    by apply train_autoencoder_keys.
  split; [exact Hkeys|]. split.
  - apply (f_equal (@length string)) in Hkeys. unfold keys in Hkeys.
    rewrite !length_map in Hkeys. exact Hkeys.
  - intros k. apply lookup_none_keys. exact Hkeys.
Qed.

(** ** add_annotations *)

Lemma map_nth_seq_gen {A B : Type} (f : A -> B) (l : list A) (d : A) :
  map (fun j => f (nth j l d)) (seq 0 (length l)) = map f l.
Proof.
  apply (nth_ext _ _ (f d) (f d)).
  - rewrite !length_map, length_seq. reflexivity.
  - intros n Hn. rewrite length_map, length_seq in Hn.
    rewrite (nth_map_in _ _ _ O) by (rewrite length_seq; exact Hn).
    rewrite seq_nth by exact Hn. simpl.
    rewrite (nth_map_in _ _ _ d) by exact Hn. reflexivity.
Qed.

Lemma sum_int_of_bool {A : Type} (p : A -> bool) (l : list A) :
  fold_right Z.add 0%Z (map (fun a => int_of_bool (p a)) l) =
  Z.of_nat (length (filter p l)).
Proof.
  induction l as [|a l IH]; [reflexivity|].
  cbn [map fold_right filter]. rewrite IH.
  destruct (p a); cbn [int_of_bool length]; lia.
Qed.

(** Column [j] of the full matrix. *)
Lemma annotation_column (var_names : list string) (annot : list term)
    (j : nat) (d : term) :
  (j < length annot)%nat ->
  map (fun r => nth j r 0%Z) (annotation_rows var_names annot) =
  map (fun gene => int_of_bool (mem_string gene (tokens (nth j annot d))))
      var_names.
Proof.
  intros Hj. unfold annotation_rows. rewrite map_map. apply map_ext.
  intros gene.
  apply (nth_map_in (fun t => int_of_bool (mem_string gene (tokens t)))
                    annot j d 0%Z Hj).
Qed.

(** The sums of the columns count the genes of each term. *)
Lemma sum_dim0_annotation (var_names : list string) (annot : list term) :
  (Z.of_nat (length var_names) < 2 ^ 63)%Z ->
  sum_dim0 (length annot) (annotation_rows var_names annot) =
  map (genes_in_term var_names) annot.
Proof.
  intros Hsize. unfold sum_dim0.
  destruct annot as [|d annot']; [reflexivity|].
  set (annot := d :: annot').
  rewrite <- (map_nth_seq_gen (genes_in_term var_names) annot d).
  apply map_ext_in. intros j Hj. apply in_seq in Hj.
  rewrite (annotation_column var_names annot j d) by lia.
  rewrite sum_int_of_bool. fold (genes_in_term var_names (nth j annot d)).
  apply wrap_small; [lia|]. unfold genes_in_term.
  pose proof (filter_length_le
                (fun gene => mem_string gene (tokens (nth j annot d)))
                var_names) as Hle.
  change (64 - 1)%Z with 63%Z. lia.
Qed.

Lemma select_map {A B : Type} (p : A -> bool) (f : A -> B) (l : list A) :
  select (map p l) (map f l) = map f (filter p l).
Proof.
  unfold select. induction l as [|a l IH]; [reflexivity|].
  cbn [map combine filter fst]. destruct (p a); cbn [map snd]; congruence.
Qed.

Lemma filter_id_map {A : Type} (p : A -> bool) (l : list A) :
  length (filter (fun b => b) (map p l)) = length (filter p l).
Proof.
  induction l as [|a l IH]; [reflexivity|].
  cbn [map filter]. destruct (p a); cbn [length]; congruence.
Qed.

(** What [add_annotations] stores, in terms of the terms that are kept. *)
Lemma add_annotations_kept (var_names : list string) (annot : list term)
    (min_genes : Z) :
  var_names <> [] -> (Z.of_nat (length var_names) < 2 ^ 63)%Z ->
  let kept :=
    filter (fun t => Z.gtb (genes_in_term var_names t) min_genes) annot in
  add_annotations var_names annot min_genes =
  Some (mkTensor (length var_names) (length kept)
                 (annotation_rows var_names kept),
        map fst kept).
Proof.
  intros Hne Hsize kept.
  destruct var_names as [|g gs]; [congruence|].
  unfold add_annotations. cbv beta iota zeta.
  rewrite sum_dim0_annotation by exact Hsize.
  rewrite map_map, select_map, filter_id_map. fold kept.
  f_equal. f_equal. f_equal.
  unfold annotation_rows. rewrite map_map. apply map_ext. intros gene.
  apply select_map.
Qed.

Lemma tget_annotation_rows (var_names : list string) (annot : list term)
    (n c i j : nat) (gene : string) (t : term) :
  nth_error var_names i = Some gene -> nth_error annot j = Some t ->
  tget (mkTensor n c (annotation_rows var_names annot)) i j =
  Some (int_of_bool (mem_string gene (tokens t))).
Proof.
  intros Hg Ht. unfold tget, annotation_rows. cbn [rows].
  rewrite nth_error_map, Hg. cbn [option_map].
  rewrite nth_error_map, Ht. reflexivity.
Qed.

(** X15.  [add_annotations] keeps the terms that hold more than [min_genes] of the
    genes of [var_names], in the order in which they were read: their names
    go to [adata.uns], and the matrix has a row per gene and a column per
    kept term, with 1 where the name of the gene is among the tokens of the
    term and 0 elsewhere.  The name of the term is one of these tokens: a
    gene that has the name of a term is annotated to it. *)
Theorem X15_add_annotations_keeps_terms_with_enough_genes
    (var_names : list string) (annot : list term) (min_genes : Z) :
  (Z.of_nat (length var_names) < 2 ^ 63)%Z -> var_names <> [] ->
  exists I_ names kept,
    add_annotations var_names annot min_genes = Some (I_, names) /\
    kept = filter (fun t => Z.gtb (genes_in_term var_names t) min_genes) annot /\
    names = map fst kept /\
    shape I_ = (length var_names, length kept) /\
    Forall (fun t => (min_genes < genes_in_term var_names t)%Z) kept /\
    (forall t, In t annot -> (min_genes < genes_in_term var_names t)%Z ->
               In t kept) /\
    (forall i j gene t,
        nth_error var_names i = Some gene -> nth_error kept j = Some t ->
        tget I_ i j = Some (if mem_string gene (tokens t) then 1%Z else 0%Z)) /\
    (forall i j gene t,
        nth_error var_names i = Some gene -> nth_error kept j = Some t ->
        gene = fst t -> tget I_ i j = Some 1%Z).
Proof.
  intros Hsize Hne.
  pose proof (add_annotations_kept var_names annot min_genes Hne Hsize) as Hadd.
  cbv zeta in Hadd.
  set (kept := filter (fun t => Z.gtb (genes_in_term var_names t) min_genes)
                      annot) in *.
  eexists _, _, kept. split; [exact Hadd|]. split; [reflexivity|].
  split; [reflexivity|]. split; [reflexivity|]. split; [|split; [|split]].
  - apply Forall_forall. intros t Ht. apply filter_In in Ht.
    destruct Ht as [_ Ht]. apply Z.gtb_lt in Ht. exact Ht.
  - intros t Hin Hlt. apply filter_In. split; [exact Hin|].
    apply Z.gtb_lt. exact Hlt.
  - intros i j gene t Hg Ht.
    rewrite (tget_annotation_rows _ _ _ _ i j gene t Hg Ht). reflexivity.
  - intros i j gene t Hg Ht ->.
    rewrite (tget_annotation_rows _ _ _ _ i j (fst t) t Hg Ht).
    unfold mem_string, tokens. cbn [existsb]. rewrite String.eqb_refl.
    reflexivity.
Qed.

Lemma X15_witness :
  exists I_,
    add_annotations var_names_example annot_example 0 =
      Some (I_, ["REPAIR"; "TP53"]%string) /\
    tget I_ 0 1 = Some 1%Z /\ tget I_ 2 0 = Some 0%Z.
Proof.
  assert (Hsize : (Z.of_nat (length var_names_example) < 2 ^ 63)%Z)
    by reflexivity.
  assert (Hne : var_names_example <> []) by discriminate.
  destruct (X15_add_annotations_keeps_terms_with_enough_genes
              var_names_example annot_example 0 Hsize Hne)
    as (I_ & names & kept & Hadd & Hkept & Hnames & _ & _ & _ & Hentry & Hname).
  exists I_. subst names kept. split; [exact Hadd|]. split.
  - apply (Hname 0%nat 1%nat "TP53"%string ("TP53", ["EGFR"])%string);
      reflexivity.
  - apply (Hentry 2%nat 0%nat "EGFR"%string
                  ("REPAIR", ["BRCA1"; "TP53"])%string); reflexivity.
Defined.

Lemma wf_annotation_rows (var_names : list string) (annot : list term) :
  wf (mkTensor (length var_names) (length annot)
               (annotation_rows var_names annot)).
Proof.
  split; cbn [rows nrows ncols]; unfold annotation_rows.
  - apply length_map.
  - apply Forall_map, Forall_forall. intros gene _. apply length_map.
Qed.

Lemma binary_annotation_rows (var_names : list string) (annot : list term)
    (n c : nat) :
  binary (mkTensor n c (annotation_rows var_names annot)).
Proof.
  unfold binary. cbn [rows]. apply Forall_concat.
  unfold annotation_rows. apply Forall_map, Forall_forall. intros gene _.
  apply Forall_map, Forall_forall. intros t _.
  destruct (mem_string gene (tokens t)); [right|left]; reflexivity.
Qed.

(** X16.  The matrix that [add_annotations] stores is what the training takes it
    for: a well-formed matrix of zeros and ones with a row per gene and a
    column per stored name, for which [(1 - I).sum()] is the number of the
    zero entries; and when [min_genes] is not negative every column holds a
    one, that is, every stored term annotates a gene. *)
Theorem X16_annotation_matrix_is_binary (var_names : list string)
    (annot : list term) (min_genes : Z) (I_ : tensor Z) (names : list string) :
  (Z.of_nat (length var_names) < 2 ^ 63)%Z ->
  add_annotations var_names annot min_genes = Some (I_, names) ->
  wf I_ /\ nrows I_ = length var_names /\ ncols I_ = length names /\
  binary I_ /\
  ((Z.of_nat (length (concat (rows I_))) < 2 ^ 63)%Z ->
   n_inact_genes_of I_ = Z.of_nat (zero_annotations I_)) /\
  ((0 <= min_genes)%Z ->
   forall j, (j < ncols I_)%nat -> exists i, tget I_ i j = Some 1%Z).
Proof.
  intros Hsize Hadd.
  assert (Hne : var_names <> []).
  { intros ->. discriminate. }
  rewrite (add_annotations_kept var_names annot min_genes Hne Hsize) in Hadd.
  cbv zeta in Hadd. injection Hadd as <- <-.
  set (kept := filter (fun t => Z.gtb (genes_in_term var_names t) min_genes)
                      annot).
  split; [apply wf_annotation_rows|]. split; [reflexivity|].
  split; [cbn [ncols]; symmetry; apply length_map|].
  split; [apply binary_annotation_rows|]. split.
  - intros Hentries. apply n_inact_genes_entries; [|exact Hentries].
    apply binary_annotation_rows.
  - intros Hmin j Hj. cbn [ncols] in Hj.
    destruct (nth_error kept j) as [t|] eqn:Ht;
      [|apply nth_error_None in Ht; lia].
    assert (Hin : In t kept) by (eapply nth_error_In; exact Ht).
    apply filter_In in Hin. destruct Hin as [_ Hgt]. apply Z.gtb_lt in Hgt.
    unfold genes_in_term in Hgt.
    destruct (filter (fun gene => mem_string gene (tokens t)) var_names)
      as [|gene rest] eqn:Hf; [simpl in Hgt; lia|].
    assert (Hg : In gene (filter (fun gene => mem_string gene (tokens t))
                                 var_names)) by (rewrite Hf; left; reflexivity).
    apply filter_In in Hg. destruct Hg as [Hgin Hmem].
    destruct (In_nth_error _ _ Hgin) as [i Hi].
    exists i. rewrite (tget_annotation_rows _ _ _ _ i j gene t Hi Ht), Hmem.
    reflexivity.
Qed.

Lemma X16_witness :
  exists I_ names,
    add_annotations var_names_example annot_example 0 = Some (I_, names) /\
    wf I_ /\ binary I_ /\ ncols I_ = 2%nat.
Proof.
  destruct (add_annotations var_names_example annot_example 0)
    as [[I_ names]|] eqn:Hadd; [|discriminate].
  assert (Hsize : (Z.of_nat (length var_names_example) < 2 ^ 63)%Z)
    by reflexivity.
  destruct (X16_annotation_matrix_is_binary var_names_example annot_example 0
              I_ names Hsize Hadd) as (Hwf & _ & Hcols & Hbin & _).
  exists I_, names. split; [reflexivity|]. split; [exact Hwf|].
  split; [exact Hbin|]. rewrite Hcols. injection Hadd as _ <-. reflexivity.
Defined.

(** ** ProxOperGroupL2: the forms of the coefficient *)

Lemma group_call_same_coeff (g1 g2 : group_coeff) (inplace : bool)
    (W : tensor R) :
  coeff_per_column g1 (ncols W) = coeff_per_column g2 (ncols W) ->
  ProxOperGroupL2_call {| gl2_group_coeff := g1; gl2_inplace := inplace |} W =
  ProxOperGroupL2_call {| gl2_group_coeff := g2; gl2_inplace := inplace |} W.
Proof.
  intros Hg. unfold ProxOperGroupL2_call. cbn [gl2_group_coeff gl2_inplace].
  rewrite Hg. reflexivity.
Qed.

(** X17.  A vector [omega] whose length is neither the number of the columns of [W]
    nor 1 makes the call raise [RuntimeError]; an [omega] of ones, one per
    column, gives what the number [alpha] alone gives; and an [omega] of one
    element [o] gives what the number [o * alpha] gives. *)
Theorem X17_group_coefficient_forms (alpha : R) (omega : list R) (o : R)
    (W : tensor R) (inplace : bool) :
  (length omega <> ncols W -> length omega <> 1%nat ->
   ProxOperGroupL2_call (ProxOperGroupL2_init alpha (Some omega) inplace) W =
   Raise RuntimeError) /\
  ProxOperGroupL2_call
    (ProxOperGroupL2_init alpha (Some (repeat 1 (ncols W))) inplace) W =
  ProxOperGroupL2_call (ProxOperGroupL2_init alpha None inplace) W /\
  ProxOperGroupL2_call (ProxOperGroupL2_init alpha (Some [o]) inplace) W =
  ProxOperGroupL2_call (ProxOperGroupL2_init (o * alpha) None inplace) W.
Proof.
  split; [|split].
  - intros Hlen Hone. unfold ProxOperGroupL2_call, ProxOperGroupL2_init.
    cbn [gl2_group_coeff coeff_per_column]. unfold expand.
    rewrite length_map. apply Nat.eqb_neq in Hlen. rewrite Hlen.
    destruct omega as [|a [|b omega']]; try reflexivity.
    exfalso. apply Hone. reflexivity.
  - unfold ProxOperGroupL2_init. apply group_call_same_coeff.
    cbn [coeff_per_column]. rewrite expand_same
      by (rewrite length_map; apply repeat_length).
    rewrite map_repeat, Rmult_1_l. reflexivity.
  - unfold ProxOperGroupL2_init. apply group_call_same_coeff.
    cbn [coeff_per_column map]. unfold expand. cbn [length].
    destruct (Nat.eqb 1 (ncols W)) eqn:Hc; [|reflexivity].
    apply Nat.eqb_eq in Hc. rewrite <- Hc. reflexivity.
Qed.

Lemma X17_witness :
  ProxOperGroupL2_call (ProxOperGroupL2_init 1 (Some [1; 2; 3]) true) W_group =
  Raise RuntimeError.
Proof.
  apply (proj1 (X17_group_coefficient_forms 1 [1; 2; 3] 1 W_group true));
    simpl; lia.
Defined.

(** ** train_autoencoder: the proximal step on a block *)

Lemma lookup_setitem_same {V : Type} (d : list (string * V)) (k : string) (v : V) :
  lookup k (setitem d k v) = Some v.
Proof.
  induction d as [|[k' v'] d IH]; simpl.
  - rewrite String.eqb_refl. reflexivity.
  - destruct (String.eqb k k') eqn:Hk; simpl.
    + rewrite String.eqb_refl. reflexivity.
    + rewrite Hk. exact IH.
Qed.

Lemma lookup_setitem_other {V : Type} (d : list (string * V)) (k k' : string)
    (v : V) :
  k' <> k -> lookup k' (setitem d k v) = lookup k' d.
Proof.
  intros Hne. apply String.eqb_neq in Hne.
  induction d as [|[k1 v1] d IH]; simpl.
  - rewrite Hne. reflexivity.
  - destruct (String.eqb k k1) eqn:Hk; simpl.
    + apply String.eqb_eq in Hk. subst k1. rewrite Hne. reflexivity.
    + destruct (String.eqb k' k1); [reflexivity|exact IH].
Qed.

(** X18.  The proximal step of the training loop on the block [k], with the
    registry of [get_prox_operators]: when the registry has an operator for
    [k], the decoder has the block and the operator ends normally, the block
    becomes what the operator returns, the other blocks stay as they are,
    nothing is printed and no batch is drawn; without an operator for [k], or
    without the block, the step raises [KeyError] for [k] and changes
    nothing. *)
Theorem X18_proximal_step_updates_its_block {C : Collaborators}
    (I : option (tensor Z)) (lambda1 lambda2 lambda3 : option R)
    (k : string) (s : state) :
  let prox_ops := get_prox_operators I lambda1 lambda2 lambda3 in
  (forall op W c,
      lookup k prox_ops = Some op -> lookup k (st_decoder s) = Some W ->
      op W = Ok c ->
      exists s',
        apply_prox prox_ops k s = (Ok tt, s') /\
        lookup k (st_decoder s') = Some (returned c) /\
        (forall k', k' <> k ->
                    lookup k' (st_decoder s') = lookup k' (st_decoder s)) /\
        keys (st_decoder s') = keys (st_decoder s) /\
        st_output s' = st_output s /\ st_drawn s' = st_drawn s) /\
  (lookup k prox_ops = None \/ lookup k (st_decoder s) = None ->
   apply_prox prox_ops k s = (Raise (KeyError k), s)).
Proof.
  intros prox_ops. split.
  - intros op W c Hop HW Hc.
    destruct (registry_operators_inplace I lambda1 lambda2 lambda3
                k op W c Hop Hc) as [_ Harg].
    unfold apply_prox, getitem. rewrite Hop, HW. cbn [bind]. rewrite Hc.
    eexists. split; [reflexivity|]. cbn [st_decoder st_output st_drawn set_decoder].
    rewrite Harg. split; [apply lookup_setitem_same|].
    split; [intros k' Hne; apply lookup_setitem_other; exact Hne|].
    split; [apply (keys_setitem_present _ _ _ W); exact HW|].
    split; reflexivity.
  - intros Hmiss. unfold apply_prox, getitem.
    destruct (lookup k prox_ops) as [op|]; cbn [bind].
    + destruct Hmiss as [Hmiss|Hmiss]; [discriminate|].
      rewrite Hmiss. reflexivity.
    + reflexivity.
Qed.

Lemma X18_witness :
  exists s',
    apply_prox (get_prox_operators None None None None) "dense"
               (initial_state adata_example
                  autoencoder_dense 1) = (Ok tt, s') /\
    lookup "dense" (st_decoder s') = Some W_example.
Proof.
  destruct (lookup "dense" (get_prox_operators None None None None))
    as [op|] eqn:Hop; [|discriminate].
  destruct (proj1 (@X18_proximal_step_updates_its_block still_collaborators
                     None None None None "dense"
                     (initial_state adata_example
                        autoencoder_dense 1))
                  op W_example
                  {| arg_after := W_example; returned := W_example;
                     same_object := true |} Hop eq_refl)
    as (s' & Hrun & Hblock & _).
  - injection Hop as <-. reflexivity.
  - exists s'. split; [exact Hrun|exact Hblock].
Defined.
